(** * pdf_merger.py: filename filtering, natural ordering and page copying

    A shallow embedding of [src/pdf_merger.py] and the properties of its
    three stages: [find_matching_pdfs] (filter and natural sort),
    [merge_pdfs] (sequential page copying) and [main] (the CLI driver).

    Conventions of the embedding.
    - A Python [str] is a [string] whose characters are the code points
      U+0000..U+00FF (one [ascii] per code point, the Latin-1 block).  The
      character tables of [str.isdigit], [str.lower], [int] and the regex
      class [\d] are written out for that block.
    - Python's [int] is unbounded: digit runs are valued in [N].
    - Everything the script obtains from outside (the regex engine, the
      directory listing, the PDF library, the result of the final write)
      is a field of the record [env].
    - Printing is recorded as a list of structured messages.  The lines
      that carry U+2713 and U+2717, the mark of success and the mark of
      failure of the final [try], may raise; what they do is part of
      [env].  The other lines are taken to be printed.
    - [pathlib] is modelled in its POSIX flavour, with [suffix] as it is
      defined up to Python 3.13.  [resolve()], [exists()] and [is_dir()]
      are given by their answers; an [OSError] of [iterdir()] or of the
      [is_file()] of an entry is the failure of the listing.
    - A file may have several paths (through "..", links); which paths
      name one file is part of [env], and storing at a path stores at
      all paths that name its file.
    - [main] is modelled from the parsed arguments on. *)

From Stdlib Require Import String Ascii List Bool Arith NArith ZArith Lia.
From Stdlib Require Import Sorting.Sorted Sorting.Permutation.
From Stdlib Require Import Structures.OrderedTypeEx.
Import ListNotations.
Local Open Scope string_scope.
Local Open Scope list_scope.

(** ** Characters and strings *)

Module Str.

(** Code point of a character. *)
Definition ord (c : ascii) : N := N_of_ascii c.

(** [Py_UNICODE_ISDECIMAL]: category Nd.  Used by the regex class [\d]
    and by [int].  In U+0000..U+00FF these are the ASCII digits. *)
Definition is_decimal (c : ascii) : bool :=
  (48 <=? ord c)%N && (ord c <=? 57)%N.

(** [Py_UNICODE_ISDIGIT]: the characters [str.isdigit] accepts.  Besides
    the decimal digits, the block contains the superscripts U+00B2,
    U+00B3 and U+00B9. *)
Definition is_digit (c : ascii) : bool :=
  is_decimal c || (ord c =? 178)%N || (ord c =? 179)%N || (ord c =? 185)%N.

(** [str.lower] on one code point: A-Z, and U+00C0..U+00DE except the
    multiplication sign U+00D7, move up by 32. *)
Definition lower_char (c : ascii) : ascii :=
  let n := ord c in
  if ((65 <=? n) && (n <=? 90))%N then ascii_of_N (n + 32)
  else if ((192 <=? n) && (n <=? 222) && negb (n =? 215))%N
       then ascii_of_N (n + 32)
       else c.

Fixpoint lower (s : string) : string :=
  match s with
  | EmptyString => EmptyString
  | String c s' => String (lower_char c) (lower s')
  end.

Fixpoint forallb (p : ascii -> bool) (s : string) : bool :=
  match s with
  | EmptyString => true
  | String c s' => p c && forallb p s'
  end.

(** [s.isdigit()]: non-empty and every character a digit. *)
Definition isdigit (s : string) : bool :=
  match s with
  | EmptyString => false
  | _ => forallb is_digit s
  end.

(** Value of a run of decimal digits, most significant first. *)
Fixpoint digits_value (acc : N) (s : string) : N :=
  match s with
  | EmptyString => acc
  | String c s' => digits_value (10 * acc + (ord c - 48))%N s'
  end.

(** [int(s)] for a string [s] that passed [isdigit]: the value when all
    characters are decimal, [ValueError] ([None]) otherwise.  File names
    are far shorter than the number of digits [int] accepts. *)
Definition int (s : string) : option N :=
  if forallb is_decimal s then Some (digits_value 0 s) else None.

(** [s1 < s2] on [str]: lexicographic on code points. *)
Definition ltb (s1 s2 : string) : bool := String.ltb s1 s2.

(** [s.rfind('.')], as the position of the last dot. *)
Fixpoint rfind_dot (s : string) : option nat :=
  match s with
  | EmptyString => None
  | String c s' =>
      match rfind_dot s' with
      | Some i => Some (S i)
      | None => if Ascii.eqb c "." then Some 0 else None
      end
  end.

(** [s.split('/')]. *)
Fixpoint split_slash (s : string) : list string :=
  match s with
  | EmptyString => [EmptyString]
  | String c s' =>
      if Ascii.eqb c "/" then EmptyString :: split_slash s'
      else match split_slash s' with
           | h :: t => String c h :: t
           | [] => [String c EmptyString]
           end
  end.

(** Number of leading slashes. *)
Fixpoint leading_slashes (s : string) : nat :=
  match s with
  | String c s' => if Ascii.eqb c "/" then S (leading_slashes s') else 0
  | EmptyString => 0
  end.

End Str.

(** ** [re.split(r'(\d+)', text)] *)

(** Prepend a character to the first piece of a split. *)
Definition cons_head (c : ascii) (l : list string) : list string :=
  match l with
  | h :: t => String c h :: t
  | [] => [String c EmptyString]
  end.

(** The split scans the text once.  [split_text] is the scanner outside a
    digit run, [split_run] the scanner inside one; in both the head of the
    result is the piece being read.  The capture group keeps every digit
    run, so the result alternates text, run, text, ..., text, with empty
    text pieces where two runs would touch the ends. *)
Fixpoint split_text (s : string) : list string :=
  match s with
  | EmptyString => [EmptyString]
  | String c s' =>
      if Str.is_decimal c then EmptyString :: cons_head c (split_run s')
      else cons_head c (split_text s')
  end
with split_run (s : string) : list string :=
  match s with
  | EmptyString => [EmptyString; EmptyString]
  | String c s' =>
      if Str.is_decimal c then cons_head c (split_run s')
      else EmptyString :: cons_head c (split_text s')
  end.

Definition re_split_digits (text : string) : list string := split_text text.

(** ** natural_sort_key *)

(** An element of a key: Python's [int] or [str]. *)
Inductive key_elem : Type :=
| KInt (n : N)
| KStr (s : string).

Definition key : Type := list key_elem.

(** [convert]: [int(text_part) if text_part.isdigit() else
    text_part.lower()].  [None] is the [ValueError] of [int]. *)
Definition convert (text_part : string) : option key_elem :=
  if Str.isdigit text_part
  then option_map KInt (Str.int text_part)
  else Some (KStr (Str.lower text_part)).

(** A list comprehension whose body may raise. *)
Fixpoint map_opt {A B : Type} (f : A -> option B) (l : list A) : option (list B) :=
  match l with
  | [] => Some []
  | x :: l' =>
      match f x with
      | None => None
      | Some y =>
          match map_opt f l' with
          | None => None
          | Some ys => Some (y :: ys)
          end
      end
  end.

Definition natural_sort_key (text : string) : option key :=
  map_opt convert (re_split_digits text).

(** ** Comparison of keys, as [list.sort] performs it *)

(** [a == b] on key elements; an [int] never equals a [str]. *)
Definition elem_eqb (a b : key_elem) : bool :=
  match a, b with
  | KInt m, KInt n => (m =? n)%N
  | KStr s, KStr t => String.eqb s t
  | _, _ => false
  end.

(** [a < b] on key elements; [None] is the [TypeError] of comparing an
    [int] with a [str]. *)
Definition elem_ltb (a b : key_elem) : option bool :=
  match a, b with
  | KInt m, KInt n => Some (m <? n)%N
  | KStr s, KStr t => Some (Str.ltb s t)
  | _, _ => None
  end.

(** [k1 < k2] on lists: the first position where the elements are not
    equal decides; without one the shorter list is the smaller. *)
Fixpoint key_ltb (k1 k2 : key) : option bool :=
  match k1, k2 with
  | [], [] => Some false
  | [], _ :: _ => Some true
  | _ :: _, [] => Some false
  | a :: k1', b :: k2' =>
      if elem_eqb a b then key_ltb k1' k2' else elem_ltb a b
  end.

(** ** [list.sort(key=...)] *)

(** The keys are computed first, one call per element; then the elements
    are ordered by their keys with [<] alone.  [list.sort] is stable, and
    a stable sort has one result whenever every pair of keys compares, so
    it is written here as a stable insertion. *)
Inductive exn : Type :=
| ValueError
| TypeError
| OSError
| UnicodeEncodeError.

Fixpoint insert_by_key {A : Type} (x : key * A) (l : list (key * A))
  : option (list (key * A)) :=
  match l with
  | [] => Some [x]
  | y :: l' =>
      match key_ltb (fst y) (fst x) with
      | None => None
      | Some true => option_map (cons y) (insert_by_key x l')
      | Some false => Some (x :: l)
      end
  end.

Fixpoint sort_keyed {A : Type} (l : list (key * A)) : option (list (key * A)) :=
  match l with
  | [] => Some []
  | x :: l' =>
      match sort_keyed l' with
      | None => None
      | Some sorted => insert_by_key x sorted
      end
  end.

(** An element paired with its key. *)
Definition with_key {A : Type} (keyfn : A -> option key) (x : A) : option (key * A) :=
  option_map (fun k => (k, x)) (keyfn x).

(** [l.sort(key=keyfn)], returning the sorted list or the exception. *)
Definition list_sort {A : Type} (keyfn : A -> option key) (l : list A)
  : exn + list A :=
  match map_opt (with_key keyfn) l with
  | None => inl ValueError
  | Some keyed =>
      match sort_keyed keyed with
      | None => inl TypeError
      | Some sorted => inr (map snd sorted)
      end
  end.

(** ** Paths ([pathlib], POSIX flavour) *)

(** A parsed path: its root ("", "/" or "//") and its components. *)
Record path : Type := mkPath { root : string; parts : list string }.

Definition path_eqb (p q : path) : bool :=
  String.eqb (root p) (root q)
  && Nat.eqb (List.length (parts p)) (List.length (parts q))
  && forallb (fun ab => String.eqb (fst ab) (snd ab)) (combine (parts p) (parts q)).

(** [Path(s)]: empty components and "." components are dropped; exactly
    two leading slashes are kept as the root "//". *)
Definition Path (s : string) : path :=
  let r := match Str.leading_slashes s with
           | 0 => ""
           | 2 => "//"
           | _ => "/"
           end in
  mkPath r (filter (fun x => negb (String.eqb x "") && negb (String.eqb x "."))
                   (Str.split_slash s)).

(** [p.name]: the last component, or the empty string. *)
Definition path_name (p : path) : string := last (parts p) "".

(** The suffix of a file name: from its last dot, unless that dot is the
    first or the last character. *)
Definition name_suffix (name : string) : string :=
  match Str.rfind_dot name with
  | Some i =>
      if Nat.ltb 0 i && Nat.ltb i (String.length name - 1)
      then substring i (String.length name - i) name
      else ""
  | None => ""
  end.

Definition path_suffix (p : path) : string := name_suffix (path_name p).

(** The stem of a file name: the name without its suffix. *)
Definition name_stem (name : string) : string :=
  substring 0 (String.length name - String.length (name_suffix name)) name.

(** [p.with_suffix(suffix)] for a well-formed [suffix] such as ".pdf":
    [ValueError] ([None]) on a path with an empty name; otherwise the old
    suffix, when there is one, is replaced, and else [suffix] is appended. *)
Definition with_suffix (p : path) (suffix : string) : option path :=
  let name := path_name p in
  if String.eqb name "" then None
  else
    let old_suffix := path_suffix p in
    let name' :=
      if String.eqb old_suffix "" then String.append name suffix
      else String.append
             (substring 0 (String.length name - String.length old_suffix) name)
             suffix in
    Some (mkPath (root p) (removelast (parts p) ++ [name'])).

Definition is_absolute (p : path) : bool := negb (String.eqb (root p) "").

(** [p / q]. *)
Definition joinpath (p q : path) : path :=
  if is_absolute q then q else mkPath (root p) (parts p ++ parts q).

(** [p / name] for an entry [name] that [iterdir] yields. *)
Definition child (p : path) (name : string) : path :=
  mkPath (root p) (parts p ++ [name]).

(** ** The environment *)

(** A PDF page, an object of the PDF library; here a label. *)
Definition page : Type := string.

(** A compiled pattern, by what [pattern.match(text, pos)] answers. *)
Definition regex : Type := string -> nat -> bool.

(** [regex.search(text)]: a match starting at any position. *)
Definition re_search (rx : regex) (text : string) : bool :=
  existsb (rx text) (seq 0 (S (String.length text))).

(** An entry of a directory: its name, and what [is_file()] answers for
    it (true for a regular file and for a link to one).  Where [is_file()]
    raises instead, the loop of lines 63-67 ends with that [OSError]:
    see [iterdir]. *)
Record dir_entry : Type := mkEntry { entry_name : string; entry_is_file : bool }.

(** How the body of the final [try] (lines 109-112) ends. *)
Inductive write_outcome : Type :=
| WriteOk           (* it ran to its end: document on disk, both lines printed *)
| WriteOpenError    (* [open(output_path, 'wb')] raised *)
| WriteIOError      (* the file was opened, then writing raised *)
| WriteReportError  (* document on disk, then the success line raised *)
| WriteStatError.   (* document on disk, success line printed, then
                       [output_path.stat()] or the size line raised *)

Record env : Type := mkEnv {
  (** [re.compile(pattern, flags)], with [true] for [re.IGNORECASE];
      [None] is [re.error]. *)
  re_compile : string -> bool -> option regex;
  (** [Path(s).resolve()]. *)
  resolve : path -> path;
  path_exists : path -> bool;
  path_is_dir : path -> bool;
  (** The enumeration of lines 63-64: [directory.iterdir()] and the
      [is_file()] of every entry, in enumeration order; [None] when the
      enumeration or one of these calls raises [OSError]. *)
  iterdir : path -> option (list dir_entry);
  (** [PdfReader(str(f))] and its pages: [None] when the reader or
      [len(reader.pages)] raises; otherwise one item per page, [None] for
      a page whose access or [add_page] raises. *)
  pdf_reader : path -> option (list (option page));
  (** How the final [try] ends for the given pages and path. *)
  write_result : path -> list page -> write_outcome;
  (** Whether the line of the handler (line 114, with U+2717) is printed;
      when not, printing it raises [UnicodeEncodeError]. *)
  error_line_prints : bool;
  (** Whether two different paths name one file. *)
  same_file : path -> path -> bool
}.

(** ** State, output and control *)

Inductive file_content : Type :=
| Document (pages : list page)
| Truncated.

Inductive message : Type :=
| MsgInvalidRegex
| MsgBadDirectory (d : path)
| MsgSearching (pattern : string)
| MsgDirectory (d : path)
| MsgNoFiles
| MsgFound (n : nat)
| MsgListItem (i : nat) (name : string)
| MsgMerging (name : string)
| MsgProcessing (name : string)
| MsgWarning (name : string)
| MsgSuccess (n : nat) (p : path)
| MsgOutputSize
| MsgWriteError.

Record state : Type := mkState {
  fs : path -> option file_content;   (* what is stored at each path *)
  stdout : list message               (* what was printed, oldest first *)
}.

Inductive outcome (A : Type) : Type :=
| Normal (a : A)
| SysExit (code : Z)
| Uncaught (e : exn).
Arguments Normal {A} a.
Arguments SysExit {A} code.
Arguments Uncaught {A} e.

Definition M (A : Type) : Type := state -> outcome A * state.

Definition ret {A : Type} (a : A) : M A := fun st => (Normal a, st).

Definition bind {A B : Type} (m : M A) (k : A -> M B) : M B :=
  fun st =>
    match m st with
    | (Normal a, st') => k a st'
    | (SysExit c, st') => (SysExit c, st')
    | (Uncaught e, st') => (Uncaught e, st')
    end.

Declare Scope py_scope.
Delimit Scope py_scope with py.
Notation "x <- m ;; k" := (bind m (fun x => k))
  (at level 61, m at next level, right associativity) : py_scope.
Notation "m ;; k" := (bind m (fun _ => k))
  (at level 61, right associativity) : py_scope.
Local Open Scope py_scope.

Definition print (m : message) : M unit :=
  fun st => (Normal tt, mkState (fs st) (stdout st ++ [m])).

Definition sys_exit {A : Type} (code : Z) : M A := fun st => (SysExit code, st).

Definition raise {A : Type} (e : exn) : M A := fun st => (Uncaught e, st).

(** Writing [c] to the file that [p] names: every path of that file
    shows it. *)
Definition store (w : env) (p : path) (c : file_content) : M unit :=
  fun st =>
    (Normal tt,
     mkState (fun q => if path_eqb q p || same_file w q p then Some c else fs st q)
             (stdout st)).

(** Exit status of the process. *)
Definition exit_status {A : Type} (o : outcome A) : Z :=
  match o with
  | Normal _ => 0
  | SysExit c => c
  | Uncaught _ => 1
  end.

(** ** find_matching_pdfs *)

(** The test of the loop body on one directory entry. *)
Definition is_candidate (rx : regex) (directory : path) (e : dir_entry) : bool :=
  let file_path := child directory (entry_name e) in
  entry_is_file e
  && String.eqb (Str.lower (path_suffix file_path)) ".pdf"
  && re_search rx (path_name file_path).

Definition matching_files (rx : regex) (directory : path) (entries : list dir_entry)
  : list path :=
  map (fun e => child directory (entry_name e))
      (filter (is_candidate rx directory) entries).

(** The sort key of line 70: [lambda x: natural_sort_key(x.name)]. *)
Definition path_key (x : path) : option key := natural_sort_key (path_name x).

Definition find_matching_pdfs (w : env) (directory : path) (pattern : string)
  : M (list path) :=
  match re_compile w pattern true with
  | None => print MsgInvalidRegex ;; sys_exit 1
  | Some rx =>
      match iterdir w directory with
      | None => raise OSError
      | Some entries =>
          match list_sort path_key
                          (matching_files rx directory entries) with
          | inl e => raise e
          | inr sorted => ret sorted
          end
      end
  end.

(** ** merge_pdfs *)

(** The page loop of one file: pages are appended to the writer one at a
    time; the first page that raises ends the loop, and what was appended
    before it stays in the writer.  The flag tells whether the loop ran to
    its end. *)
Fixpoint add_pages (pages : list (option page)) (writer : list page)
  : list page * bool :=
  match pages with
  | [] => (writer, true)
  | Some p :: rest => add_pages rest (writer ++ [p])
  | None :: _ => (writer, false)
  end.

(** The body of [for pdf_file in pdf_files], with its [try]/[except]. *)
Definition process_file (w : env) (writer : list page) (pdf_file : path)
  : M (list page) :=
  print (MsgProcessing (path_name pdf_file)) ;;
  match pdf_reader w pdf_file with
  | None => print (MsgWarning (path_name pdf_file)) ;; ret writer
  | Some pages =>
      let (writer', completed) := add_pages pages writer in
      if completed then ret writer'
      else print (MsgWarning (path_name pdf_file)) ;; ret writer'
  end.

Fixpoint merge_loop (w : env) (pdf_files : list path) (writer : list page)
  : M (list page) :=
  match pdf_files with
  | [] => ret writer
  | pdf_file :: rest =>
      writer' <- process_file w writer pdf_file ;;
      merge_loop w rest writer'
  end.

Fixpoint print_listing (i : nat) (pdf_files : list path) : M unit :=
  match pdf_files with
  | [] => ret tt
  | pdf_file :: rest =>
      print (MsgListItem i (path_name pdf_file)) ;; print_listing (S i) rest
  end.

(** The handler of the final [try] (lines 113-115). *)
Definition write_failed (w : env) : M unit :=
  if error_line_prints w
  then print MsgWriteError ;; sys_exit 1
  else raise UnicodeEncodeError.

(** The final [try]: open, write, report; every exception of its body,
    those of the report after the write too, goes to the handler. *)
Definition write_output (w : env) (n : nat) (writer : list page) (output_path : path)
  : M unit :=
  match write_result w output_path writer with
  | WriteOk =>
      store w output_path (Document writer) ;;
      print (MsgSuccess n output_path) ;;
      print MsgOutputSize
  | WriteOpenError =>
      write_failed w
  | WriteIOError =>
      store w output_path Truncated ;;
      write_failed w
  | WriteReportError =>
      store w output_path (Document writer) ;;
      write_failed w
  | WriteStatError =>
      store w output_path (Document writer) ;;
      print (MsgSuccess n output_path) ;;
      write_failed w
  end.

Definition merge_pdfs (w : env) (pdf_files : list path) (output_path : path)
  : M unit :=
  match pdf_files with
  | [] => print MsgNoFiles
  | _ :: _ =>
      print (MsgFound (List.length pdf_files)) ;;
      print_listing 1 pdf_files ;;
      print (MsgMerging (path_name output_path)) ;;
      writer <- merge_loop w pdf_files [] ;;
      write_output w (List.length pdf_files) writer output_path
  end.

(** ** main *)

Record args : Type := mkArgs {
  arg_pattern : string;
  arg_output : string;
  arg_directory : string
}.

(** Lines 170-176: the output path the merge is given; [None] is the
    [ValueError] of [with_suffix]. *)
Definition resolve_output (directory output_path : path) : option path :=
  match
    (if negb (String.eqb (Str.lower (path_suffix output_path)) ".pdf")
     then with_suffix output_path ".pdf"
     else Some output_path)
  with
  | None => None
  | Some output_path' =>
      Some (if negb (is_absolute output_path')
            then joinpath directory output_path'
            else output_path')
  end.

(** The file name the output gets: its own when the suffix is already
    ".pdf" in any letter case, else its stem followed by ".pdf". *)
Definition output_name (output_path : path) : string :=
  if String.eqb (Str.lower (path_suffix output_path)) ".pdf"
  then path_name output_path
  else String.append (name_stem (path_name output_path)) ".pdf".

Definition main (w : env) (a : args) : M unit :=
  let directory := resolve w (Path (arg_directory a)) in
  let output_path := Path (arg_output a) in
  if negb (path_exists w directory) || negb (path_is_dir w directory)
  then print (MsgBadDirectory directory) ;; sys_exit 1
  else
    match resolve_output directory output_path with
    | None => raise ValueError
    | Some output_path' =>
        print (MsgSearching (arg_pattern a)) ;;
        print (MsgDirectory directory) ;;
        matching_pdfs <- find_matching_pdfs w directory (arg_pattern a) ;;
        merge_pdfs w matching_pdfs output_path'
    end.

(** Exit status and final state of a run started in state [st]. *)
Definition run (w : env) (a : args) (st : state) : Z * state :=
  let (o, st') := main w a st in (exit_status o, st').

(** ** The natural order, as the specification words it *)

(** A text piece holds no decimal digit; a digit run is a non-empty string
    of decimal digits. *)
Definition text_piece (p : string) : bool :=
  Str.forallb (fun c => negb (Str.is_decimal c)) p.

Definition digit_run (p : string) : bool :=
  negb (String.eqb p "") && Str.forallb Str.is_decimal p.

(** Pieces alternate text, run, text, ..., text.  Runs are maximal: a text
    piece between two runs is not empty.  Only the first and the last text
    piece may be empty. *)
Fixpoint well_split (first : bool) (pieces : list string) : bool :=
  match pieces with
  | [] => false
  | [t] => text_piece t
  | t :: r :: rest =>
      text_piece t && (first || negb (String.eqb t ""))
      && digit_run r && well_split false rest
  end.

(** What follows a text piece: nothing, or a run and a well-split rest. *)
Definition after_text (rest : list string) : bool :=
  match rest with
  | [] => true
  | r :: rest' => digit_run r && well_split false rest'
  end.

(** Strings free of the characters that [str.isdigit] accepts and [\d]
    does not (in this block U+00B2, U+00B3 and U+00B9); every ASCII string
    is one. *)
Definition plain (s : string) : bool :=
  Str.forallb (fun c => negb (Str.is_digit c) || Str.is_decimal c) s.

Definition join_pieces (pieces : list string) : string :=
  fold_right String.append "" pieces.

(** The key the specification describes: text pieces lowered, digit runs
    as integers, by position. *)
Fixpoint key_of_pieces (is_text : bool) (pieces : list string) : key :=
  match pieces with
  | [] => []
  | p :: rest =>
      (if is_text then KStr (Str.lower p) else KInt (Str.digits_value 0 p))
        :: key_of_pieces (negb is_text) rest
  end.

(** The comparison the specification describes: piece by piece, digit runs
    as integers, text pieces case-insensitively as text; the first
    difference decides, and a proper prefix is the smaller. *)
Fixpoint pieces_ltb (is_text : bool) (p1 p2 : list string) : bool :=
  match p1, p2 with
  | [], [] => false
  | [], _ :: _ => true
  | _ :: _, [] => false
  | x :: p1', y :: p2' =>
      match (if is_text
             then String.compare (Str.lower x) (Str.lower y)
             else N.compare (Str.digits_value 0 x) (Str.digits_value 0 y)) with
      | Lt => true
      | Gt => false
      | Eq => pieces_ltb (negb is_text) p1' p2'
      end
  end.

Definition natural_ltb (a b : string) : bool :=
  pieces_ltb true (re_split_digits a) (re_split_digits b).

(** A total comparison of keys, used to reason about the sort: it agrees
    with [key_ltb] wherever [key_ltb] answers. *)
Definition elem_cmp (a b : key_elem) : comparison :=
  match a, b with
  | KInt m, KInt n => N.compare m n
  | KStr s, KStr t => String.compare s t
  | KInt _, KStr _ => Lt
  | KStr _, KInt _ => Gt
  end.

Fixpoint key_cmp (k1 k2 : key) : comparison :=
  match k1, k2 with
  | [], [] => Eq
  | [], _ :: _ => Lt
  | _ :: _, [] => Gt
  | a :: k1', b :: k2' =>
      match elem_cmp a b with
      | Eq => key_cmp k1' k2'
      | c => c
      end
  end.


(** [x] is not greater than [y], by their keys. *)
Definition key_le {A : Type} (x y : key * A) : Prop :=
  key_cmp (fst x) (fst y) <> Gt.

(** The pairs that the key pass of the sort produces carry each element's
    own key. *)
Definition keyed_by {A : Type} (keyfn : A -> option key) (kx : key * A) : Prop :=
  keyfn (snd kx) = Some (fst kx).

(** Keys whose elements are [str] at even and [int] at odd positions. *)
Fixpoint key_shape (is_text : bool) (k : key) : bool :=
  match k with
  | [] => true
  | KStr _ :: k' => is_text && key_shape (negb is_text) k'
  | KInt _ :: k' => negb is_text && key_shape (negb is_text) k'
  end.


Definition shaped {A : Type} (x : key * A) : Prop := key_shape true (fst x) = true.

(** ** What the merge loop leaves in the writer *)

(** The writer after the loop body ran on one file. *)
Definition copy_file (w : env) (writer : list page) (pdf_file : path) : list page :=
  match pdf_reader w pdf_file with
  | None => writer
  | Some pages => fst (add_pages pages writer)
  end.

Definition merged_pages (w : env) (pdf_files : list path) : list page :=
  fold_left (copy_file w) pdf_files [].

(** The pages of a file up to the first one that raises. *)
Fixpoint pages_before_failure (pages : list (option page)) : list page :=
  match pages with
  | Some p :: rest => p :: pages_before_failure rest
  | _ => []
  end.

(** What one file contributes to the output. *)
Definition contribution (w : env) (pdf_file : path) : list page :=
  match pdf_reader w pdf_file with
  | None => []
  | Some pages => pages_before_failure pages
  end.

(** ** Leading zeros *)


(** Whether the last character of [s] is a decimal digit. *)
Fixpoint ends_in_digit (s : string) : bool :=
  match s with
  | EmptyString => false
  | String c EmptyString => Str.is_decimal c
  | String _ s' => ends_in_digit s'
  end.

(** ** Environments for the examples *)

(** An engine for patterns made of plain letters: such a pattern matches
    at a position when the text continues with it there, letter case
    ignored under [re.IGNORECASE].  A lone opening parenthesis does not
    compile. *)
Definition literal_match (pattern : string) (ignorecase : bool) : regex :=
  fun text pos =>
    let fold := fun s => if ignorecase then Str.lower s else s in
    String.prefix (fold pattern)
                  (substring pos (String.length text - pos) (fold text)).

Definition literal_compile (pattern : string) (ignorecase : bool) : option regex :=
  if String.eqb pattern "(" then None else Some (literal_match pattern ignorecase).

(** One directory, "/docs", with the given entries, the given readers by
    file name, and the given result of the final write. *)
Definition docs : path := Path "/docs".

Definition docs_env (entries : list dir_entry)
           (reader : string -> option (list (option page)))
           (written : write_outcome) : env :=
  mkEnv literal_compile
        (fun p => p)
        (fun p => path_eqb p docs)
        (fun p => path_eqb p docs)
        (fun p => if path_eqb p docs then Some entries else None)
        (fun p => reader (path_name p))
        (fun _ _ => written)
        true
        (fun _ _ => false).

Definition empty_state : state := mkState (fun _ => None) [].

Definition no_reader : string -> option (list (option page)) := fun _ => None.

(** "/docs" holding L10.pdf, l2.pdf, L02.pdf and L2.pdf, enumerated in
    that order, a text file and a sub-directory. *)
Definition lectures : env :=
  docs_env [mkEntry "L10.pdf" true; mkEntry "notes.txt" true;
            mkEntry "l2.pdf" true; mkEntry "L02.pdf" true;
            mkEntry "L.pdf" false; mkEntry "L2.pdf" true]
           no_reader WriteOk.

(** Readers for A.pdf (two pages) and B.pdf (three pages). *)
Definition two_files (name : string) : option (list (option page)) :=
  if String.eqb name "A.pdf" then Some [Some "A.p1"; Some "A.p2"]
  else if String.eqb name "B.pdf" then Some [Some "B.p1"; Some "B.p2"; Some "B.p3"]
  else None.

Definition two_files_pages (f : path) : list page :=
  if String.eqb (path_name f) "A.pdf" then ["A.p1"; "A.p2"]
  else ["B.p1"; "B.p2"; "B.p3"].

Definition shelf : env :=
  docs_env [mkEntry "B.pdf" true; mkEntry "A.pdf" true] two_files WriteOk.

(** The same shelf when the output cannot be opened for writing. *)
Definition locked_shelf : env :=
  docs_env [mkEntry "B.pdf" true; mkEntry "A.pdf" true] two_files WriteOpenError.

(** A.pdf opens and reports two pages, and the second one raises; B.pdf
    has one page. *)
Definition torn (name : string) : option (list (option page)) :=
  if String.eqb name "A.pdf" then Some [Some "A.p1"; None]
  else if String.eqb name "B.pdf" then Some [Some "B.p1"]
  else None.

Definition torn_shelf : env :=
  docs_env [mkEntry "B.pdf" true; mkEntry "A.pdf" true] torn WriteOk.

(** U+00B2, superscript two: [str.isdigit] accepts it, [\d] and [int] do
    not. *)
Definition superscript_two : ascii := ascii_of_N 178.

(** "/docs" holding one file, whose name starts with U+00B2. *)
Definition superscript_name : string := String superscript_two "1.pdf".

Definition superscripts : env :=
  docs_env [mkEntry superscript_name true] no_reader WriteOk.

(** ** Further vocabulary for the properties *)

(** Whether the first character of [s] is a decimal digit. *)
Definition starts_with_digit (s : string) : bool :=
  match s with
  | String c _ => Str.is_decimal c
  | EmptyString => false
  end.

(** Whether a file opens and every page of it is copied. *)
Definition reads_fully (w : env) (pdf_file : path) : bool :=
  match pdf_reader w pdf_file with
  | None => false
  | Some pages => forallb (fun p => match p with Some _ => true | None => false end) pages
  end.

(** What the loop prints for one file. *)
Definition file_report (w : env) (pdf_file : path) : list message :=
  MsgProcessing (path_name pdf_file)
    :: (if reads_fully w pdf_file then [] else [MsgWarning (path_name pdf_file)]).

(** The numbered list of candidates, counted from [i]. *)
Fixpoint listing_report (i : nat) (pdf_files : list path) : list message :=
  match pdf_files with
  | [] => []
  | pdf_file :: rest => MsgListItem i (path_name pdf_file) :: listing_report (S i) rest
  end.

(** [a] is not greater than [b], by the keys [keyfn] gives them. *)
Definition le_by {A : Type} (keyfn : A -> option key) (a b : A) : Prop :=
  exists ka kb, keyfn a = Some ka /\ keyfn b = Some kb /\ key_cmp ka kb <> Gt.

(** What the final [try] prints. *)
Definition write_report (w : env) (n : nat) (writer : list page) (output_path : path)
  : list message :=
  let handler := if error_line_prints w then [MsgWriteError] else [] in
  match write_result w output_path writer with
  | WriteOk => [MsgSuccess n output_path; MsgOutputSize]
  | WriteStatError => MsgSuccess n output_path :: handler
  | _ => handler
  end.

(** From [st] to [st'] the path [q] keeps its content and nothing
    printed is lost. *)
Definition keeps (q : path) (st st' : state) : Prop :=
  fs st' q = fs st q /\ exists out, stdout st' = stdout st ++ out.

(** The shelf of [shelf], enumerated in the other order. *)
Definition shelf_reversed : env :=
  docs_env [mkEntry "A.pdf" true; mkEntry "B.pdf" true] two_files WriteOk.

(** The eight spellings of ".pdf". *)
Definition pdf_spellings : list string :=
  [".pdf"; ".pdF"; ".pDf"; ".pDF"; ".Pdf"; ".PdF"; ".PDf"; ".PDF"].

(** "/docs" holding a PDF with an upper-case extension, a text file, a
    sub-directory named like a PDF, and a file named ".pdf". *)
Definition cabinet_entries : list dir_entry :=
  [mkEntry "tips.txt" true; mkEntry "Report.PDF" true;
   mkEntry "old.pdf" false; mkEntry ".pdf" true].

Definition cabinet : env := docs_env cabinet_entries no_reader WriteOk.

(** The shelf on a stdout that encodes neither U+2713 nor U+2717: the
    document is written, the success line raises, and so does the line
    of the handler. *)
Definition mute_shelf : env :=
  mkEnv literal_compile
        (fun p => p)
        (fun p => path_eqb p docs)
        (fun p => path_eqb p docs)
        (fun p => if path_eqb p docs
                  then Some [mkEntry "B.pdf" true; mkEntry "A.pdf" true]
                  else None)
        (fun p => two_files (path_name p))
        (fun _ _ => WriteReportError)
        false
        (fun _ _ => false).

(** The shelf where "/docs/sub/../A.pdf" is another path of
    "/docs/A.pdf". *)
Definition dotted_shelf : env :=
  mkEnv literal_compile
        (fun p => p)
        (fun p => path_eqb p docs)
        (fun p => path_eqb p docs)
        (fun p => if path_eqb p docs
                  then Some [mkEntry "B.pdf" true; mkEntry "A.pdf" true]
                  else None)
        (fun p => two_files (path_name p))
        (fun _ _ => WriteOk)
        true
        (fun p q =>
           (path_eqb p (Path "/docs/A.pdf") && path_eqb q (Path "/docs/sub/../A.pdf"))
           || (path_eqb p (Path "/docs/sub/../A.pdf") && path_eqb q (Path "/docs/A.pdf"))).

(** * Properties *)

(** ** The split *)

Lemma cons_head_join c l :
  l <> [] -> join_pieces (cons_head c l) = String c (join_pieces l).
Proof. destruct l as [|h t]; [congruence | reflexivity]. Qed.

Lemma split_nonempty s : split_text s <> [] /\ split_run s <> [].
Proof.
  destruct s as [|c s]; simpl; [split; discriminate|].
  destruct (Str.is_decimal c); split; try discriminate;
    match goal with |- cons_head _ ?l <> [] => destruct l; discriminate end.
Qed.

Lemma split_join s :
  join_pieces (split_text s) = s /\ join_pieces (split_run s) = s.
Proof.
  induction s as [|c s [IHt IHr]]; simpl; [split; reflexivity|].
  destruct (split_nonempty s) as [Ht Hr].
  destruct (Str.is_decimal c); split; simpl;
    rewrite cons_head_join by assumption; congruence.
Qed.

Lemma well_split_cons first t rest :
  well_split first (t :: rest) =
  text_piece t
  && match rest with
     | [] => true
     | r :: rest' =>
         (first || negb (String.eqb t "")) && digit_run r && well_split false rest'
     end.
Proof.
  destruct rest as [|r rest']; simpl; [now rewrite andb_true_r|].
  now rewrite <- !andb_assoc.
Qed.

Lemma split_invariant s :
  (exists t rest, split_text s = t :: rest
                  /\ text_piece t = true /\ after_text rest = true)
  /\ (exists r rest, split_run s = r :: rest
                     /\ Str.forallb Str.is_decimal r = true
                     /\ well_split false rest = true).
Proof.
  induction s as [|c s [(t & rest & Et & Ht & Hrest) (r & rest' & Er & Hr & Hrest')]];
    simpl.
  - split; [exists "", [] | exists "", [""]]; repeat split; reflexivity.
  - destruct (Str.is_decimal c) eqn:Hc; split.
    + exists "", (String c r :: rest'). rewrite Er. simpl.
      repeat split; try reflexivity.
      unfold digit_run. simpl. now rewrite Hc, Hr, Hrest'.
    + exists (String c r), rest'. rewrite Er. simpl.
      repeat split; try assumption. now rewrite Hc, Hr.
    + exists (String c t), rest. rewrite Et. simpl.
      repeat split; try assumption. unfold text_piece in *. simpl.
      now rewrite Hc, Ht.
    + exists "", (String c t :: rest). rewrite Et. cbn [cons_head].
      repeat split; try reflexivity.
      rewrite well_split_cons. unfold text_piece in *. simpl.
      rewrite Hc, Ht. simpl.
      destruct rest as [|r0 rest0]; [reflexivity|]. simpl in Hrest. exact Hrest.
Qed.

Lemma re_split_well_split text :
  well_split true (re_split_digits text) = true.
Proof.
  destruct (split_invariant text) as [(t & rest & Et & Ht & Hrest) _].
  unfold re_split_digits. rewrite Et, well_split_cons, Ht. simpl.
  destruct rest; [reflexivity | exact Hrest].
Qed.

Lemma re_split_join text : join_pieces (re_split_digits text) = text.
Proof. apply split_join. Qed.

(** ** The key *)

Lemma list_ind2 {A : Type} (P : list A -> Prop) :
  P [] -> (forall x, P [x]) -> (forall x y l, P l -> P (x :: y :: l)) ->
  forall l, P l.
Proof.
  intros H0 H1 H2.
  fix IH 1. intros [|x [|y l]]; [exact H0 | apply H1 | apply H2, IH].
Qed.

Lemma decimal_is_digit c : Str.is_decimal c = true -> Str.is_digit c = true.
Proof. unfold Str.is_digit. now intros ->. Qed.

Lemma forallb_decimal_digit s :
  Str.forallb Str.is_decimal s = true -> Str.forallb Str.is_digit s = true.
Proof.
  induction s as [|c s IH]; simpl; [reflexivity|].
  rewrite !andb_true_iff. intros [Hc Hs]. split; [now apply decimal_is_digit | auto].
Qed.

Lemma convert_digit_run r :
  digit_run r = true -> convert r = Some (KInt (Str.digits_value 0 r)).
Proof.
  unfold digit_run, convert, Str.int, Str.isdigit.
  rewrite andb_true_iff. intros [Hne Hall].
  destruct r as [|c r]; [discriminate|].
  now rewrite (forallb_decimal_digit _ Hall), Hall.
Qed.

Lemma convert_text_piece t x :
  text_piece t = true -> convert t = Some x -> x = KStr (Str.lower t).
Proof.
  unfold convert, Str.int, Str.isdigit, text_piece.
  destruct t as [|c t]; simpl; [intros _ [= <-]; reflexivity|].
  rewrite andb_true_iff, negb_true_iff. intros [Hc _].
  destruct (Str.is_digit c && Str.forallb Str.is_digit t).
  - rewrite Hc. simpl. discriminate.
  - now intros [= <-].
Qed.

Lemma key_of_well_split pieces :
  forall first k,
    well_split first pieces = true ->
    map_opt convert pieces = Some k ->
    k = key_of_pieces true pieces.
Proof.
  induction pieces as [|t|t r rest IH] using list_ind2; intros first k Hw Hk.
  - discriminate.
  - simpl in Hw, Hk. destruct (convert t) as [x|] eqn:Ex; [|discriminate].
    injection Hk as <-. simpl. now rewrite (convert_text_piece _ _ Hw Ex).
  - rewrite well_split_cons in Hw.
    apply andb_true_iff in Hw as [Ht Hw].
    apply andb_true_iff in Hw as [Hw Hrest].
    apply andb_true_iff in Hw as [_ Hr].
    cbn [map_opt] in Hk. rewrite (convert_digit_run _ Hr) in Hk.
    destruct (convert t) as [x|] eqn:Ex; [|discriminate].
    destruct (map_opt convert rest) as [k'|] eqn:Ek; [|discriminate].
    injection Hk as <-. simpl.
    rewrite (convert_text_piece _ _ Ht Ex), (IH false k' Hrest eq_refl).
    reflexivity.
Qed.

Lemma natural_sort_key_pieces text k :
  natural_sort_key text = Some k ->
  k = key_of_pieces true (re_split_digits text).
Proof. apply key_of_well_split with (first := true), re_split_well_split. Qed.

Lemma key_of_pieces_shape b pieces : key_shape b (key_of_pieces b pieces) = true.
Proof.
  revert b. induction pieces as [|p rest IH]; intros b; simpl; [reflexivity|].
  destruct b; simpl; apply IH.
Qed.

Lemma natural_sort_key_shape text k :
  natural_sort_key text = Some k -> key_shape true k = true.
Proof. intros ->%natural_sort_key_pieces. apply key_of_pieces_shape. Qed.

(** Plain names always have a key. *)
Lemma forallb_append p a b :
  Str.forallb p (String.append a b) = Str.forallb p a && Str.forallb p b.
Proof. induction a as [|c a IH]; simpl; [reflexivity|]. now rewrite IH, andb_assoc. Qed.

Lemma plain_pieces pieces :
  plain (join_pieces pieces) = true -> Forall (fun p => plain p = true) pieces.
Proof.
  induction pieces as [|p rest IH]; simpl; [constructor|].
  unfold plain in *. rewrite forallb_append, andb_true_iff. intros [Hp Hrest].
  constructor; auto.
Qed.

Lemma convert_plain_text t :
  plain t = true -> text_piece t = true -> convert t = Some (KStr (Str.lower t)).
Proof.
  unfold convert, Str.isdigit, plain, text_piece.
  destruct t as [|c t]; simpl; [reflexivity|].
  rewrite !andb_true_iff, negb_true_iff, orb_true_iff, negb_true_iff.
  intros [[Hc|Hc] _] [Hd _]; [now rewrite Hc | congruence].
Qed.

Lemma map_opt_plain pieces :
  forall first,
    well_split first pieces = true ->
    Forall (fun p => plain p = true) pieces ->
    map_opt convert pieces = Some (key_of_pieces true pieces).
Proof.
  induction pieces as [|t|t r rest IH] using list_ind2; intros first Hw Hp.
  - discriminate.
  - simpl in Hw. inversion_clear Hp as [|? ? Hpt _]. simpl.
    now rewrite (convert_plain_text _ Hpt Hw).
  - rewrite well_split_cons in Hw.
    apply andb_true_iff in Hw as [Ht Hw].
    apply andb_true_iff in Hw as [Hw Hrest].
    apply andb_true_iff in Hw as [_ Hr].
    inversion_clear Hp as [|? ? Hpt Hp']. inversion_clear Hp' as [|? ? _ Hp''].
    cbn [map_opt]. rewrite (convert_plain_text _ Hpt Ht), (convert_digit_run _ Hr).
    now rewrite (IH false Hrest Hp'').
Qed.

Lemma plain_has_key text :
  plain text = true ->
  natural_sort_key text = Some (key_of_pieces true (re_split_digits text)).
Proof.
  intros Hp. apply map_opt_plain with (first := true).
  - apply re_split_well_split.
  - apply plain_pieces. now rewrite re_split_join.
Qed.

(** ** Comparison of keys *)

Lemma string_compare_refl s : String.compare s s = Eq.
Proof. exact (proj2 (String_as_OT.cmp_eq s s) eq_refl). Qed.

Lemma string_compare_eq s t : String.compare s t = Eq -> s = t.
Proof. exact (proj1 (String_as_OT.cmp_eq s t)). Qed.

Lemma string_compare_lt_trans s t u :
  String.compare s t = Lt -> String.compare t u = Lt -> String.compare s u = Lt.
Proof.
  intros H1 H2. apply (proj2 (String_as_OT.cmp_lt s u)).
  apply (String_as_OT.lt_trans s t u);
    [exact (proj1 (String_as_OT.cmp_lt s t) H1)
    | exact (proj1 (String_as_OT.cmp_lt t u) H2)].
Qed.

Lemma string_eqb_compare s t :
  String.eqb s t = match String.compare s t with Eq => true | _ => false end.
Proof.
  destruct (String.eqb_spec s t) as [->|Hne].
  - now rewrite string_compare_refl.
  - destruct (String.compare s t) eqn:E; try reflexivity.
    now apply string_compare_eq in E.
Qed.

Lemma N_eqb_compare m n :
  (m =? n)%N = match N.compare m n with Eq => true | _ => false end.
Proof.
  destruct (N.eqb_spec m n) as [->|Hne].
  - now rewrite N.compare_refl.
  - destruct (N.compare m n) eqn:E; try reflexivity.
    now apply N.compare_eq_iff in E.
Qed.

Lemma N_ltb_compare m n :
  (m <? n)%N = match N.compare m n with Lt => true | _ => false end.
Proof. reflexivity. Qed.

Lemma elem_eqb_cmp a b :
  elem_eqb a b = match elem_cmp a b with Eq => true | _ => false end.
Proof.
  destruct a, b; simpl; auto using string_eqb_compare, N_eqb_compare.
Qed.

Lemma elem_cmp_eq a b : elem_cmp a b = Eq -> a = b.
Proof.
  destruct a, b; simpl; try discriminate.
  - now intros ->%N.compare_eq_iff.
  - now intros ->%string_compare_eq.
Qed.

Lemma elem_cmp_refl a : elem_cmp a a = Eq.
Proof.
  destruct a; simpl; [apply N.compare_refl | apply string_compare_refl].
Qed.

Lemma elem_cmp_antisym a b : elem_cmp b a = CompOpp (elem_cmp a b).
Proof.
  destruct a, b; simpl; auto using N.compare_antisym, String.compare_antisym.
Qed.

Lemma elem_cmp_lt_trans a b c :
  elem_cmp a b = Lt -> elem_cmp b c = Lt -> elem_cmp a c = Lt.
Proof.
  destruct a, b, c; simpl; try discriminate; try reflexivity.
  - rewrite !N.compare_lt_iff. lia.
  - apply string_compare_lt_trans.
Qed.

Lemma key_cmp_eq k1 : forall k2, key_cmp k1 k2 = Eq -> k1 = k2.
Proof.
  induction k1 as [|a k1 IH]; intros [|b k2]; simpl; try discriminate; auto.
  destruct (elem_cmp a b) eqn:E; try discriminate.
  intros H. now rewrite (elem_cmp_eq _ _ E), (IH _ H).
Qed.

Lemma key_cmp_refl k : key_cmp k k = Eq.
Proof. induction k as [|a k IH]; simpl; [reflexivity|]. now rewrite elem_cmp_refl. Qed.

Lemma key_cmp_antisym k1 : forall k2, key_cmp k2 k1 = CompOpp (key_cmp k1 k2).
Proof.
  induction k1 as [|a k1 IH]; intros [|b k2]; simpl; try reflexivity.
  rewrite (elem_cmp_antisym a b). destruct (elem_cmp a b); simpl; auto.
Qed.

Lemma key_cmp_lt_trans k1 : forall k2 k3,
  key_cmp k1 k2 = Lt -> key_cmp k2 k3 = Lt -> key_cmp k1 k3 = Lt.
Proof.
  induction k1 as [|a k1 IH]; intros [|b k2] [|c k3]; simpl;
    try discriminate; try reflexivity.
  destruct (elem_cmp a b) eqn:Eab; try discriminate;
    destruct (elem_cmp b c) eqn:Ebc; try discriminate; intros H1 H2.
  - apply elem_cmp_eq in Eab, Ebc. subst. rewrite elem_cmp_refl. eauto.
  - apply elem_cmp_eq in Eab. subst. now rewrite Ebc.
  - apply elem_cmp_eq in Ebc. subst. now rewrite Eab.
  - now rewrite (elem_cmp_lt_trans _ _ _ Eab Ebc).
Qed.

(** "Not greater" is transitive. *)
Lemma key_cmp_le_trans k1 k2 k3 :
  key_cmp k1 k2 <> Gt -> key_cmp k2 k3 <> Gt -> key_cmp k1 k3 <> Gt.
Proof.
  destruct (key_cmp k1 k2) eqn:E12; [| |congruence];
    destruct (key_cmp k2 k3) eqn:E23; try congruence; intros _ _.
  - apply key_cmp_eq in E12, E23. subst. now rewrite key_cmp_refl.
  - apply key_cmp_eq in E12. subst. now rewrite E23.
  - apply key_cmp_eq in E23. subst. now rewrite E12.
  - now rewrite (key_cmp_lt_trans _ _ _ E12 E23).
Qed.

(** Wherever [key_ltb] answers, it answers as [key_cmp]. *)
Lemma key_ltb_cmp k1 : forall k2 b,
  key_ltb k1 k2 = Some b ->
  b = match key_cmp k1 k2 with Lt => true | _ => false end.
Proof.
  induction k1 as [|a k1 IH]; intros [|c k2] b; simpl; try (now intros [= <-]).
  rewrite elem_eqb_cmp.
  destruct (elem_cmp a c) eqn:E; auto;
    destruct a, c; simpl in *; try discriminate; intros [= <-];
      unfold Str.ltb, String.ltb; try rewrite N_ltb_compare; now rewrite E.
Qed.

(** Keys of one shape always compare: no [TypeError]. *)
Lemma key_ltb_shape k1 : forall k2 b,
  key_shape b k1 = true -> key_shape b k2 = true ->
  exists r, key_ltb k1 k2 = Some r.
Proof.
  induction k1 as [|a k1 IH]; intros [|c k2] b H1 H2; simpl; eauto.
  destruct a, c, b; simpl in *; try discriminate;
    match goal with |- context [if ?e then _ else _] => destruct e end; eauto.
Qed.


(** The code's comparison of two keys is the specification's comparison
    of the pieces. *)
Lemma key_ltb_pieces p1 : forall p2 b,
  key_ltb (key_of_pieces b p1) (key_of_pieces b p2) = Some (pieces_ltb b p1 p2).
Proof.
  induction p1 as [|x p1 IH]; intros [|y p2] b; simpl; try reflexivity.
  destruct b; simpl.
  - rewrite string_eqb_compare. unfold Str.ltb, String.ltb.
    destruct (String.compare (Str.lower x) (Str.lower y)); auto.
  - rewrite N_eqb_compare, N_ltb_compare.
    destruct (N.compare (Str.digits_value 0 x) (Str.digits_value 0 y)); auto.
Qed.

(** ** The sort *)

Section Sorting.

Context {A : Type}.

Lemma insert_total (x : key * A) l :
  shaped x -> Forall shaped l -> exists l', insert_by_key x l = Some l'.
Proof.
  intros Hx. induction l as [|y l IH]; intros Hl; simpl; [eauto|].
  inversion_clear Hl as [|? ? Hy Hl'].
  destruct (key_ltb_shape _ _ _ Hy Hx) as [[|] ->]; [|eauto].
  destruct (IH Hl') as [l' ->]. simpl. eauto.
Qed.

Lemma insert_perm (x : key * A) l : forall l',
  insert_by_key x l = Some l' -> Permutation (x :: l) l'.
Proof.
  induction l as [|y l IH]; intros l'; simpl.
  - now intros [= <-].
  - destruct (key_ltb (fst y) (fst x)) as [[|]|]; try discriminate.
    + destruct (insert_by_key x l) as [l0|]; simpl; [|discriminate].
      intros [= <-]. rewrite perm_swap. now constructor; apply IH.
    + now intros [= <-].
Qed.

Lemma insert_sorted (x : key * A) l : forall l',
  StronglySorted key_le l ->
  insert_by_key x l = Some l' ->
  StronglySorted key_le l'.
Proof.
  induction l as [|y l IH]; intros l' Hs; simpl.
  - intros [= <-]. repeat constructor.
  - inversion_clear Hs as [|? ? Hs' Hy].
    destruct (key_ltb (fst y) (fst x)) as [[|]|] eqn:E; try discriminate.
    + destruct (insert_by_key x l) as [l0|] eqn:E0; simpl; [|discriminate].
      intros [= <-]. constructor; [now apply IH|].
      apply (Permutation_Forall (insert_perm _ _ _ E0)).
      constructor; [|assumption].
      unfold key_le. apply key_ltb_cmp in E.
      destruct (key_cmp (fst y) (fst x)); congruence.
    + intros [= <-].
      assert (Hxy : key_le x y).
      { unfold key_le. rewrite key_cmp_antisym. apply key_ltb_cmp in E.
        destruct (key_cmp (fst y) (fst x)); simpl; congruence. }
      constructor; [now constructor|].
      constructor; [assumption|].
      eapply Forall_impl; [|exact Hy].
      intros z Hz. exact (key_cmp_le_trans _ _ _ Hxy Hz).
Qed.


Lemma sort_keyed_total (l : list (key * A)) :
  Forall shaped l -> exists l', sort_keyed l = Some l'.
Proof.
  induction l as [|x l IH]; intros Hl; simpl; [eauto|].
  inversion_clear Hl as [|? ? Hx Hl'].
  destruct (IH Hl') as [l0 E]. rewrite E.
  apply insert_total; [assumption|].
  clear IH Hx. revert l0 E. induction l as [|y l IHl]; intros l0; simpl.
  - intros [= <-]. constructor.
  - inversion_clear Hl' as [|? ? Hy Hl''].
    destruct (sort_keyed l) as [l1|] eqn:E1; [|discriminate].
    intros E. apply (Permutation_Forall (insert_perm _ _ _ E)).
    constructor; auto.
Qed.

Lemma sort_keyed_perm (l : list (key * A)) : forall l', sort_keyed l = Some l' -> Permutation l l'.
Proof.
  induction l as [|x l IH]; intros l'; simpl.
  - intros [= <-]. constructor.
  - destruct (sort_keyed l) as [l0|]; [|discriminate].
    intros E. apply insert_perm in E.
    etransitivity; [|exact E]. constructor. now apply IH.
Qed.

Lemma sort_keyed_sorted (l : list (key * A)) : forall l',
  sort_keyed l = Some l' -> StronglySorted key_le l'.
Proof.
  induction l as [|x l IH]; intros l'; simpl.
  - intros [= <-]. constructor.
  - destruct (sort_keyed l) as [l0|]; [|discriminate].
    apply insert_sorted. now apply IH.
Qed.


Lemma sorted_nth (R : key * A -> key * A -> Prop) l :
  StronglySorted R l ->
  forall i j x y,
    nth_error l i = Some x -> nth_error l j = Some y -> i < j -> R x y.
Proof.
  induction 1 as [|a l Hs IH Ha]; intros i j x y Hi Hj Hij.
  - destruct i; discriminate.
  - destruct j as [|j]; [lia|]. simpl in Hj. destruct i as [|i]; simpl in Hi.
    + injection Hi as <-. rewrite Forall_forall in Ha.
      apply Ha. eapply nth_error_In; eassumption.
    + eapply IH; eauto. lia.
Qed.

Variable keyfn : A -> option key.

Lemma map_opt_with_key l : forall keyed,
  map_opt (with_key keyfn) l = Some keyed ->
  map snd keyed = l /\ Forall (keyed_by keyfn) keyed.
Proof.
  induction l as [|x l IH]; intros keyed; simpl.
  - intros [= <-]. split; constructor.
  - unfold with_key at 1. destruct (keyfn x) as [k|] eqn:Ek; simpl; [|discriminate].
    destruct (map_opt (with_key keyfn) l) as [keyed'|]; [|discriminate].
    intros [= <-]. destruct (IH _ eq_refl) as [Hm Hf]. simpl.
    split; [now rewrite Hm | constructor; assumption].
Qed.

Lemma map_opt_with_key_none l :
  map_opt (with_key keyfn) l = None <-> exists x, In x l /\ keyfn x = None.
Proof.
  induction l as [|x l IH]; simpl.
  - split; [discriminate | intros (? & [] & _)].
  - unfold with_key at 1. destruct (keyfn x) as [k|] eqn:Ek; simpl.
    + destruct (map_opt (with_key keyfn) l) as [keyed'|].
      * split; [discriminate|]. intros (y & [<-|Hy] & Hn); [congruence|].
        assert (H : Some keyed' = None) by (apply (proj2 IH); eauto).
        discriminate H.
      * split; [|reflexivity]. intros _.
        destruct (proj1 IH eq_refl) as (y & Hy & Hn). eauto.
    + split; [|reflexivity]. eauto.
Qed.

Hypothesis keyfn_shape : forall x k, keyfn x = Some k -> key_shape true k = true.

Lemma keyed_shaped keyed : Forall (keyed_by keyfn) keyed -> Forall shaped keyed.
Proof. apply Forall_impl. intros [k x] H. exact (keyfn_shape _ _ H). Qed.

(** The sort raises only when a key cannot be computed. *)
Lemma list_sort_total l :
  (forall x, In x l -> keyfn x <> None) ->
  exists sorted, list_sort keyfn l = inr sorted.
Proof.
  intros Hk. unfold list_sort.
  destruct (map_opt (with_key keyfn) l) as [keyed|] eqn:E.
  - destruct (map_opt_with_key _ _ E) as [_ Hf].
    destruct (sort_keyed_total _ (keyed_shaped _ Hf)) as [l' ->]. eauto.
  - apply map_opt_with_key_none in E as (x & Hx & Hn). now destruct (Hk x Hx).
Qed.

Lemma list_sort_error l e :
  list_sort keyfn l = inl e ->
  e = ValueError /\ exists x, In x l /\ keyfn x = None.
Proof.
  unfold list_sort.
  destruct (map_opt (with_key keyfn) l) as [keyed|] eqn:E.
  - destruct (map_opt_with_key _ _ E) as [_ Hf].
    destruct (sort_keyed_total _ (keyed_shaped _ Hf)) as [l' ->]. discriminate.
  - intros [= <-]. split; [reflexivity|]. now apply map_opt_with_key_none.
Qed.

Lemma list_sort_inr l sorted :
  list_sort keyfn l = inr sorted ->
  exists keyed keyed',
    map_opt (with_key keyfn) l = Some keyed
    /\ sort_keyed keyed = Some keyed'
    /\ sorted = map snd keyed'
    /\ map snd keyed = l
    /\ Forall (keyed_by keyfn) keyed'.
Proof.
  unfold list_sort.
  destruct (map_opt (with_key keyfn) l) as [keyed|] eqn:E; [|discriminate].
  destruct (sort_keyed keyed) as [keyed'|] eqn:E'; [|discriminate].
  intros [= <-]. exists keyed, keyed'.
  destruct (map_opt_with_key _ _ E) as [Hm Hf].
  repeat split; auto.
  exact (Permutation_Forall (sort_keyed_perm _ _ E') Hf).
Qed.

Lemma list_sort_perm l sorted :
  list_sort keyfn l = inr sorted -> Permutation l sorted.
Proof.
  intros (keyed & keyed' & _ & Es & -> & <- & _)%list_sort_inr.
  apply Permutation_map, sort_keyed_perm, Es.
Qed.

(** In the sorted list an element of smaller key stands before every
    element of greater key. *)
Lemma list_sort_order l sorted i j a b ka kb :
  list_sort keyfn l = inr sorted ->
  nth_error sorted i = Some a -> nth_error sorted j = Some b ->
  keyfn a = Some ka -> keyfn b = Some kb ->
  key_ltb ka kb = Some true ->
  i < j.
Proof.
  intros (keyed & keyed' & _ & Es & -> & _ & Hf)%list_sort_inr Hi Hj Ha Hb Hlt.
  rewrite nth_error_map in Hi, Hj.
  destruct (nth_error keyed' i) as [[ka' a']|] eqn:Ei; [|discriminate].
  destruct (nth_error keyed' j) as [[kb' b']|] eqn:Ej; [|discriminate].
  simpl in Hi, Hj. injection Hi as ->. injection Hj as ->.
  rewrite Forall_forall in Hf.
  pose proof (Hf _ (nth_error_In _ _ Ei)) as Ka.
  pose proof (Hf _ (nth_error_In _ _ Ej)) as Kb.
  unfold keyed_by in Ka, Kb. simpl in Ka, Kb.
  assert (ka' = ka) as -> by congruence. assert (kb' = kb) as -> by congruence.
  apply key_ltb_cmp in Hlt.
  destruct (key_cmp ka kb) eqn:Ec; try discriminate.
  destruct (Nat.lt_trichotomy i j) as [Hij|[->|Hji]]; [assumption| |].
  - rewrite Ei in Ej. injection Ej as -> _. rewrite key_cmp_refl in Ec. discriminate.
  - pose proof (sorted_nth _ _ (sort_keyed_sorted _ _ Es) _ _ _ _ Ej Ei Hji) as Hle.
    unfold key_le in Hle. simpl in Hle.
    rewrite key_cmp_antisym, Ec in Hle. now destruct Hle.
Qed.



End Sorting.

(** ** Paths *)

Lemma forallb_combine_eqb l1 : forall l2,
  List.length l1 = List.length l2 ->
  forallb (fun ab => String.eqb (fst ab) (snd ab)) (combine l1 l2) = true ->
  l1 = l2.
Proof.
  induction l1 as [|a l1 IH]; intros [|b l2]; simpl; try discriminate; auto.
  intros [= Hlen]. rewrite andb_true_iff. intros [Hab Hrest].
  apply String.eqb_eq in Hab. subst. f_equal. auto.
Qed.

Lemma path_eqb_eq p q : path_eqb p q = true <-> p = q.
Proof.
  unfold path_eqb. split.
  - rewrite !andb_true_iff. intros [[Hr Hl] Hp].
    apply String.eqb_eq in Hr. apply Nat.eqb_eq in Hl.
    destruct p as [rp pp], q as [rq pq]. simpl in *. subst.
    f_equal. now apply forallb_combine_eqb.
  - intros <-. rewrite String.eqb_refl, Nat.eqb_refl. simpl.
    induction (parts p) as [|a l IH]; simpl; [reflexivity|].
    now rewrite String.eqb_refl.
Qed.

Lemma path_eqb_refl p : path_eqb p p = true.
Proof. now apply path_eqb_eq. Qed.

Lemma path_name_child directory name : path_name (child directory name) = name.
Proof. unfold path_name, child. simpl. apply last_last. Qed.

(** ** find_matching_pdfs *)

Lemma find_matching_pdfs_unfold w directory pattern st :
  find_matching_pdfs w directory pattern st =
  match re_compile w pattern true with
  | None => (SysExit 1, mkState (fs st) (stdout st ++ [MsgInvalidRegex]))
  | Some rx =>
      match iterdir w directory with
      | None => (Uncaught OSError, st)
      | Some entries =>
          match list_sort path_key
                          (matching_files rx directory entries) with
          | inl e => (Uncaught e, st)
          | inr sorted => (Normal sorted, st)
          end
      end
  end.
Proof.
  unfold find_matching_pdfs.
  destruct (re_compile w pattern true); [|reflexivity].
  destruct (iterdir w directory); [|reflexivity].
  destruct (list_sort _ _); reflexivity.
Qed.

Lemma path_key_shape (x : path) k :
  path_key x = Some k -> key_shape true k = true.
Proof. apply natural_sort_key_shape. Qed.

Lemma in_matching_files rx directory entries p :
  In p (matching_files rx directory entries) <->
  exists e, In e entries /\ p = child directory (entry_name e)
            /\ is_candidate rx directory e = true.
Proof.
  unfold matching_files. rewrite in_map_iff. split.
  - intros (e & <- & He). apply filter_In in He as [He Hc]. eauto.
  - intros (e & He & -> & Hc). exists e. split; [reflexivity|].
    apply filter_In. auto.
Qed.

Lemma re_search_anywhere rx text :
  re_search rx text = true <->
  exists pos, pos <= String.length text /\ rx text pos = true.
Proof.
  unfold re_search. rewrite existsb_exists. split.
  - intros (pos & Hin & H). apply in_seq in Hin. exists pos. split; [lia | exact H].
  - intros (pos & Hle & H). exists pos. split; [apply in_seq; lia | exact H].
Qed.

Lemma is_candidate_iff rx directory e :
  is_candidate rx directory e = true <->
  entry_is_file e = true
  /\ Str.lower (name_suffix (entry_name e)) = ".pdf"
  /\ exists pos, pos <= String.length (entry_name e)
                 /\ rx (entry_name e) pos = true.
Proof.
  unfold is_candidate, path_suffix. rewrite path_name_child.
  rewrite !andb_true_iff, String.eqb_eq, re_search_anywhere. tauto.
Qed.

(** ** merge_pdfs *)

Lemma add_pages_all ps : forall writer,
  add_pages (map Some ps) writer = (writer ++ ps, true).
Proof.
  induction ps as [|p ps IH]; intros writer; simpl.
  - now rewrite app_nil_r.
  - now rewrite IH, <- app_assoc.
Qed.

Lemma process_file_result w writer f st :
  exists out,
    process_file w writer f st
    = (Normal (copy_file w writer f), mkState (fs st) (stdout st ++ out)).
Proof.
  unfold process_file, copy_file, bind, print, ret. simpl.
  destruct (pdf_reader w f) as [pages|].
  - destruct (add_pages pages writer) as [writer' [|]]; simpl.
    + exists [MsgProcessing (path_name f)]. reflexivity.
    + exists [MsgProcessing (path_name f); MsgWarning (path_name f)].
      now rewrite <- ?app_assoc.
  - exists [MsgProcessing (path_name f); MsgWarning (path_name f)].
    simpl. now rewrite <- ?app_assoc.
Qed.

(** The loop never leaves early and never touches the file system. *)
Lemma merge_loop_result w pdf_files : forall writer st,
  exists out,
    merge_loop w pdf_files writer st
    = (Normal (fold_left (copy_file w) pdf_files writer),
       mkState (fs st) (stdout st ++ out)).
Proof.
  induction pdf_files as [|f rest IH]; intros writer st; simpl.
  - exists []. unfold ret. rewrite app_nil_r. now destruct st.
  - unfold bind. destruct (process_file_result w writer f st) as [out1 ->].
    destruct (IH (copy_file w writer f) (mkState (fs st) (stdout st ++ out1)))
      as [out2 ->].
    simpl. exists (out1 ++ out2). now rewrite app_assoc.
Qed.

Lemma print_listing_result pdf_files : forall i st,
  exists out,
    print_listing i pdf_files st = (Normal tt, mkState (fs st) (stdout st ++ out)).
Proof.
  induction pdf_files as [|f rest IH]; intros i st; simpl.
  - exists []. unfold ret. rewrite app_nil_r. now destruct st.
  - unfold bind, print. simpl.
    destruct (IH (S i) (mkState (fs st) (stdout st ++ [MsgListItem i (path_name f)])))
      as [out ->].
    simpl. exists (MsgListItem i (path_name f) :: out). now rewrite <- app_assoc.
Qed.

(** A run of [merge_pdfs] on a non-empty list: the loop, then the write
    of what the loop collected. *)
Lemma merge_pdfs_nonempty w pdf_files output_path st :
  pdf_files <> [] ->
  exists out,
    merge_pdfs w pdf_files output_path st
    = write_output w (List.length pdf_files) (merged_pages w pdf_files) output_path
                   (mkState (fs st) (stdout st ++ out)).
Proof.
  destruct pdf_files as [|f rest]; [congruence|]. intros _.
  unfold merge_pdfs, bind, print.
  destruct (print_listing_result (f :: rest) 1
              (mkState (fs st) (stdout st ++ [MsgFound (List.length (f :: rest))])))
    as [out1 ->].
  cbn [fs stdout].
  destruct (merge_loop_result w (f :: rest) []
              (mkState (fs st)
                 (((stdout st ++ [MsgFound (List.length (f :: rest))]) ++ out1)
                    ++ [MsgMerging (path_name output_path)])))
    as [out2 ->].
  cbn [fs stdout]. eexists. unfold merged_pages.
  rewrite <- !app_assoc. reflexivity.
Qed.

Lemma write_output_ok w n writer output_path st :
  write_result w output_path writer = WriteOk ->
  write_output w n writer output_path st
  = (Normal tt,
     mkState (fun q => if path_eqb q output_path || same_file w q output_path
                       then Some (Document writer) else fs st q)
             ((stdout st ++ [MsgSuccess n output_path]) ++ [MsgOutputSize])).
Proof. unfold write_output. intros ->. reflexivity. Qed.

Lemma write_output_exit w n writer output_path st :
  exit_status (fst (write_output w n writer output_path st))
  = match write_result w output_path writer with WriteOk => 0%Z | _ => 1%Z end.
Proof.
  unfold write_output, write_failed.
  destruct (write_result _ _ _), (error_line_prints w); reflexivity.
Qed.

Lemma merged_pages_readable w pages_of pdf_files : forall writer,
  (forall f, In f pdf_files -> pdf_reader w f = Some (map Some (pages_of f))) ->
  fold_left (copy_file w) pdf_files writer
  = writer ++ concat (map pages_of pdf_files).
Proof.
  induction pdf_files as [|f rest IH]; intros writer Hr; simpl.
  - now rewrite app_nil_r.
  - rewrite IH by (intros; apply Hr; now right).
    unfold copy_file. rewrite (Hr f) by now left.
    rewrite add_pages_all. simpl. now rewrite app_assoc.
Qed.

Lemma merged_pages_unreadable w pdf_files : forall writer,
  (forall f, In f pdf_files -> pdf_reader w f = None) ->
  fold_left (copy_file w) pdf_files writer = writer.
Proof.
  induction pdf_files as [|f rest IH]; intros writer Hr; simpl; [reflexivity|].
  rewrite IH by (intros; apply Hr; now right).
  unfold copy_file. now rewrite (Hr f) by now left.
Qed.

(** ** Letter case and the key *)

Ltac each_char c :=
  destruct c as [[|] [|] [|] [|] [|] [|] [|] [|]].















(** ** Leading zeros and the key *)

(** Prepend a string to the first piece of a split. *)
Lemma split_run_digits d : forall s,
  Str.forallb Str.is_decimal d = true ->
  exists h t,
    split_run s = h :: t /\ split_run (String.append d s) = String.append d h :: t.
Proof.
  induction d as [|c d IH]; intros s Hd; simpl.
  - destruct (split_run s) as [|h t] eqn:E; [now destruct (split_nonempty s)|].
    exists h, t. auto.
  - simpl in Hd. apply andb_true_iff in Hd as [Hc Hd]. rewrite Hc.
    destruct (IH s Hd) as (h & t & E1 & E2). exists h, t. rewrite E2. auto.
Qed.

Lemma split_text_digit_run d s :
  digit_run d = true ->
  exists h t,
    split_run s = h :: t
    /\ split_text (String.append d s) = "" :: String.append d h :: t.
Proof.
  unfold digit_run. rewrite andb_true_iff. intros [Hne Hd].
  destruct d as [|c d]; [discriminate|]. simpl in Hd |- *.
  apply andb_true_iff in Hd as [Hc Hd]. rewrite Hc.
  destruct (split_run_digits d s Hd) as (h & t & E1 & E2).
  exists h, t. rewrite E2. auto.
Qed.








(** ** Suffixes *)

Lemma string_length_append a b :
  String.length (String.append a b) = String.length a + String.length b.
Proof. induction a as [|c a IH]; simpl; [reflexivity | now rewrite IH]. Qed.

Lemma substring_length s : forall n m,
  n + m <= String.length s -> String.length (substring n m s) = m.
Proof.
  induction s as [|c s IH]; intros [|n] [|m]; simpl; intros H; try reflexivity;
    try lia.
  - rewrite IH; [reflexivity | lia].
  - apply IH. lia.
  - apply IH. simpl. lia.
Qed.

Lemma substring_whole s : substring 0 (String.length s) s = s.
Proof. induction s as [|c s IH]; simpl; [reflexivity | now rewrite IH]. Qed.

Lemma substring_skip a b m :
  substring (String.length a) m (String.append a b) = substring 0 m b.
Proof.
  induction a as [|c a IH]; simpl; [reflexivity|]. exact IH.
Qed.

Lemma rfind_dot_bound s i : Str.rfind_dot s = Some i -> i < String.length s.
Proof.
  revert i. induction s as [|c s IH]; intros i; simpl; [discriminate|].
  destruct (Str.rfind_dot s) as [j|].
  - intros [= <-]. specialize (IH j eq_refl). lia.
  - destruct (Ascii.eqb c "."); [intros [= <-]; lia | discriminate].
Qed.

Lemma rfind_dot_append a b i :
  Str.rfind_dot b = Some i ->
  Str.rfind_dot (String.append a b) = Some (String.length a + i).
Proof.
  intros Hb. induction a as [|c a IH]; simpl; [exact Hb | now rewrite IH].
Qed.

Lemma name_suffix_pdf stem :
  stem <> "" -> name_suffix (String.append stem ".pdf") = ".pdf".
Proof.
  intros Hne. unfold name_suffix.
  rewrite (rfind_dot_append stem ".pdf" 0 eq_refl), Nat.add_0_r.
  rewrite string_length_append. simpl String.length.
  assert (Hlen : 0 < String.length stem) by (destruct stem; simpl; [congruence | lia]).
  replace (Nat.ltb 0 (String.length stem)) with true
    by (symmetry; apply Nat.ltb_lt; lia).
  replace (Nat.ltb (String.length stem) (String.length stem + 4 - 1)) with true
    by (symmetry; apply Nat.ltb_lt; lia).
  simpl andb. cbv iota.
  replace (String.length stem + 4 - String.length stem) with 4 by lia.
  now rewrite substring_skip.
Qed.

Lemma name_suffix_length name :
  name_suffix name <> "" ->
  0 < String.length name - String.length (name_suffix name)
  /\ String.length (name_suffix name) <= String.length name.
Proof.
  unfold name_suffix.
  destruct (Str.rfind_dot name) as [i|] eqn:E; [|congruence].
  destruct (Nat.ltb 0 i) eqn:E0; [|simpl; congruence].
  destruct (Nat.ltb i (String.length name - 1)) eqn:E1; [|simpl; congruence].
  simpl. intros _. apply Nat.ltb_lt in E0, E1.
  rewrite substring_length by lia. lia.
Qed.

Lemma name_stem_nonempty name : name <> "" -> name_stem name <> "".
Proof.
  intros Hne. unfold name_stem.
  destruct (String.eqb_spec (name_suffix name) "") as [->|Hs].
  - simpl. now rewrite Nat.sub_0_r, substring_whole.
  - destruct (name_suffix_length name Hs) as [Hpos Hle].
    intros Hempty.
    assert (Hl : String.length
                   (substring 0 (String.length name - String.length (name_suffix name)) name)
                 = String.length name - String.length (name_suffix name))
      by (apply substring_length; lia).
    rewrite Hempty in Hl. simpl in Hl. lia.
Qed.

Lemma with_suffix_pdf p :
  path_name p <> "" ->
  with_suffix p ".pdf"
  = Some (mkPath (root p)
                 (removelast (parts p)
                    ++ [String.append (name_stem (path_name p)) ".pdf"])).
Proof.
  intros Hne. unfold with_suffix.
  destruct (String.eqb_spec (path_name p) "") as [|_]; [contradiction|].
  unfold path_suffix, name_stem.
  destruct (String.eqb_spec (name_suffix (path_name p)) "") as [->|_]; [|reflexivity].
  simpl String.length. now rewrite Nat.sub_0_r, substring_whole.
Qed.

Lemma path_name_parts p :
  path_name p <> "" -> parts p = removelast (parts p) ++ [path_name p].
Proof.
  unfold path_name. intros Hne. apply app_removelast_last.
  intros E. rewrite E in Hne. now apply Hne.
Qed.

(** * The specified behaviour *)

(** ** Natural order of file names *)

(** C1.  The pieces of a name alternate text and maximal digit runs and
    join back to the name; a key that is computed holds the text pieces
    lowered and the runs as integers, and two computed keys compare as
    the pieces do (runs as integers, text case-insensitively); "L2.pdf"
    is smaller than "L10.pdf", and in every list that
    [find_matching_pdfs] returns, "L2.pdf" stands before "L10.pdf". *)
Theorem natural_order_of_names :
  (forall text,
      well_split true (re_split_digits text) = true
      /\ join_pieces (re_split_digits text) = text)
  /\ (forall a b ka kb,
         natural_sort_key a = Some ka -> natural_sort_key b = Some kb ->
         ka = key_of_pieces true (re_split_digits a)
         /\ kb = key_of_pieces true (re_split_digits b)
         /\ key_ltb ka kb = Some (natural_ltb a b))
  /\ (natural_ltb "L2.pdf" "L10.pdf" = true
      /\ natural_ltb "L10.pdf" "L2.pdf" = false
      /\ Str.ltb "L2.pdf" "L10.pdf" = false)
  /\ (forall w directory pattern st files st' i j p q,
         find_matching_pdfs w directory pattern st = (Normal files, st') ->
         nth_error files i = Some p -> path_name p = "L2.pdf" ->
         nth_error files j = Some q -> path_name q = "L10.pdf" ->
         i < j).
Proof.
  split; [|split; [|split]].
  - intros text. split; [apply re_split_well_split | apply re_split_join].
  - intros a b ka kb Ha Hb.
    apply natural_sort_key_pieces in Ha, Hb. subst.
    repeat split. apply key_ltb_pieces.
  - repeat split; reflexivity.
  - intros w directory pattern st files st' i j p q Hfind Hi Hp Hj Hq.
    rewrite find_matching_pdfs_unfold in Hfind.
    destruct (re_compile w pattern true) as [rx|]; [|discriminate].
    destruct (iterdir w directory) as [entries|]; [|discriminate].
    destruct (list_sort _ _) as [e|sorted] eqn:Es; [discriminate|].
    injection Hfind as <- _.
    eapply (list_sort_order _ _ _ i j p q); try eassumption.
    + unfold path_key. rewrite Hp. reflexivity.
    + unfold path_key. rewrite Hq. reflexivity.
    + reflexivity.
Qed.

Lemma natural_order_of_names_witness :
  find_matching_pdfs lectures docs "l" empty_state
  = (Normal [child docs "l2.pdf"; child docs "L02.pdf";
             child docs "L2.pdf"; child docs "L10.pdf"], empty_state)
  /\ 2 < 3
  /\ key_ltb [KStr "l"; KInt 2; KStr ".pdf"] [KStr "l"; KInt 10; KStr ".pdf"]
     = Some (natural_ltb "L2.pdf" "L10.pdf").
Proof.
  destruct natural_order_of_names as (_ & Hkeys & _ & Horder).
  split; [|split].
  - vm_compute. reflexivity.
  - apply (Horder lectures docs "l" empty_state
                  [child docs "l2.pdf"; child docs "L02.pdf";
                   child docs "L2.pdf"; child docs "L10.pdf"]
                  empty_state 2 3 (child docs "L2.pdf") (child docs "L10.pdf"));
      vm_compute; reflexivity.
  - apply (Hkeys "L2.pdf" "L10.pdf"); vm_compute; reflexivity.
Defined.



(** C8.  Keys of one shape always compare, but a key is not always
    computed: the name made of U+00B2 followed by "1.pdf" splits into a
    text piece that [isdigit] accepts and [int] rejects, so the key pass
    of the sort raises [ValueError] and the run ends with status 1. *)
Theorem superscript_name_breaks_sort :
  re_split_digits superscript_name = [String superscript_two ""; "1"; ".pdf"]
  /\ Str.isdigit (String superscript_two "") = true
  /\ Str.int (String superscript_two "") = None
  /\ natural_sort_key superscript_name = None
  /\ find_matching_pdfs superscripts docs "pdf" empty_state
     = (Uncaught ValueError, empty_state)
  /\ fst (run superscripts (mkArgs "pdf" "out" "/docs") empty_state) = 1%Z.
Proof. repeat split; vm_compute; reflexivity. Qed.

(** ** The merge *)

(** C2.  When every candidate opens and every page of it is copied, the
    writer holds after the loop the pages of the candidates, file after
    file in the order of the list and page after page in the order of
    each file; and when the list is not empty and the final [try] runs
    to its end, that is the document stored at the output path. *)
Theorem merged_pages_in_order w pages_of pdf_files output_path st :
  (forall f, In f pdf_files -> pdf_reader w f = Some (map Some (pages_of f))) ->
  merged_pages w pdf_files = concat (map pages_of pdf_files)
  /\ (exists st', merge_loop w pdf_files [] st
                  = (Normal (concat (map pages_of pdf_files)), st'))
  /\ (pdf_files <> [] ->
      write_result w output_path (concat (map pages_of pdf_files)) = WriteOk ->
      exists st',
        merge_pdfs w pdf_files output_path st = (Normal tt, st')
        /\ fs st' output_path = Some (Document (concat (map pages_of pdf_files)))).
Proof.
  intros Hread.
  assert (Hpages : merged_pages w pdf_files = concat (map pages_of pdf_files)).
  { unfold merged_pages. now rewrite (merged_pages_readable w pages_of). }
  split; [exact Hpages|]. split.
  - destruct (merge_loop_result w pdf_files [] st) as [out ->].
    fold (merged_pages w pdf_files). rewrite Hpages. eauto.
  - intros Hne Hwrite.
    destruct (merge_pdfs_nonempty w pdf_files output_path st Hne) as [out ->].
    rewrite Hpages, write_output_ok by assumption.
    eexists. split; [reflexivity|]. simpl. now rewrite path_eqb_refl.
Qed.

Lemma merged_pages_in_order_witness :
  merged_pages shelf [child docs "A.pdf"; child docs "B.pdf"]
  = ["A.p1"; "A.p2"; "B.p1"; "B.p2"; "B.p3"]
  /\ exists st',
      merge_pdfs shelf [child docs "A.pdf"; child docs "B.pdf"]
                 (child docs "out.pdf") empty_state = (Normal tt, st')
      /\ fs st' (child docs "out.pdf")
         = Some (Document ["A.p1"; "A.p2"; "B.p1"; "B.p2"; "B.p3"]).
Proof.
  assert (Hread : forall f, In f [child docs "A.pdf"; child docs "B.pdf"] ->
                            pdf_reader shelf f = Some (map Some (two_files_pages f))).
  { intros f [<-|[<-|[]]]; reflexivity. }
  destruct (merged_pages_in_order shelf two_files_pages
              [child docs "A.pdf"; child docs "B.pdf"] (child docs "out.pdf")
              empty_state Hread) as (Hpages & _ & Hwrite).
  split; [exact Hpages|].
  apply Hwrite; [discriminate | reflexivity].
Defined.

(** C5.  A file that fails while its pages are copied is warned about
    and the loop goes on, but the pages copied before the failure stay
    in the writer: with A.pdf torn at its second page and B.pdf sound,
    the document written holds A's first page and B's page. *)
Theorem torn_file_leaves_pages :
  pdf_reader torn_shelf (child docs "A.pdf") = Some [Some "A.p1"; None]
  /\ merged_pages torn_shelf [child docs "A.pdf"; child docs "B.pdf"]
     = ["A.p1"; "B.p1"]
  /\ fst (run torn_shelf (mkArgs "pdf" "out" "/docs") empty_state) = 0%Z
  /\ stdout (snd (run torn_shelf (mkArgs "pdf" "out" "/docs") empty_state))
     = [MsgSearching "pdf"; MsgDirectory docs;
        MsgFound 2; MsgListItem 1 "A.pdf"; MsgListItem 2 "B.pdf";
        MsgMerging "out.pdf";
        MsgProcessing "A.pdf"; MsgWarning "A.pdf";
        MsgProcessing "B.pdf";
        MsgSuccess 2 (child docs "out.pdf"); MsgOutputSize]
  /\ fs (snd (run torn_shelf (mkArgs "pdf" "out" "/docs") empty_state))
        (child docs "out.pdf")
     = Some (Document ["A.p1"; "B.p1"]).
Proof. repeat split; vm_compute; reflexivity. Qed.

(** C7.  [merge_pdfs] on an empty list prints that no file was found,
    stores nothing and returns; so an invocation that reaches the search
    and finds no candidate ends with status 0, the file system as it was,
    and that message printed last. *)
Theorem empty_match_set_writes_nothing :
  (forall w output_path st,
      merge_pdfs w [] output_path st
      = (Normal tt, mkState (fs st) (stdout st ++ [MsgNoFiles])))
  /\ (forall w a st rx entries out,
         path_exists w (resolve w (Path (arg_directory a))) = true ->
         path_is_dir w (resolve w (Path (arg_directory a))) = true ->
         resolve_output (resolve w (Path (arg_directory a))) (Path (arg_output a))
         = Some out ->
         re_compile w (arg_pattern a) true = Some rx ->
         iterdir w (resolve w (Path (arg_directory a))) = Some entries ->
         matching_files rx (resolve w (Path (arg_directory a))) entries = [] ->
         run w a st
         = (0%Z,
            mkState (fs st)
                    (stdout st
                       ++ [MsgSearching (arg_pattern a);
                           MsgDirectory (resolve w (Path (arg_directory a)));
                           MsgNoFiles]))).
Proof.
  split; [reflexivity|].
  intros w a st rx entries out Hex Hdir Hout Hrx Hls Hnone.
  unfold run, main. rewrite Hex, Hdir, Hout. cbn [negb orb].
  unfold bind at 1. cbn [print]. unfold bind at 1. cbn [print].
  unfold bind at 1. rewrite find_matching_pdfs_unfold, Hrx, Hls, Hnone.
  cbn. now rewrite <- !app_assoc.
Qed.

Lemma empty_match_set_writes_nothing_witness :
  run shelf (mkArgs "zzz" "out" "/docs") empty_state
  = (0%Z, mkState (fun _ => None)
                  [MsgSearching "zzz"; MsgDirectory docs; MsgNoFiles]).
Proof.
  destruct empty_match_set_writes_nothing as [_ H].
  apply (H shelf (mkArgs "zzz" "out" "/docs") empty_state
           (literal_match "zzz" true)
           [mkEntry "B.pdf" true; mkEntry "A.pdf" true]
           (child docs "out.pdf")); reflexivity.
Defined.

(** C9, as the claim states it, fails where the write fails: two
    candidates, the output cannot be opened, nothing is stored and the
    status is 1. *)
Lemma locked_output_exits_1 :
  find_matching_pdfs locked_shelf docs "pdf" empty_state
  = (Normal [child docs "A.pdf"; child docs "B.pdf"], empty_state)
  /\ fst (run locked_shelf (mkArgs "pdf" "out" "/docs") empty_state) = 1%Z
  /\ fs (snd (run locked_shelf (mkArgs "pdf" "out" "/docs") empty_state))
        (child docs "out.pdf") = None.
Proof. repeat split; vm_compute; reflexivity. Qed.

(** C9, amended.  For a non-empty list the loop always ends and the
    final [try] is entered with whatever the loop collected.  When the
    [try] runs to its end, [merge_pdfs] returns, the document is stored,
    and the success message carries the number of candidates, not of
    files merged.  In every other case the status is 1: when the write
    fails, and also when the document is written and the report after it
    raises, in which case the document is stored all the same.  When
    every candidate fails to open, the loop ends with an empty writer. *)
Theorem nonempty_candidates_are_written w pdf_files output_path st :
  pdf_files <> [] ->
  (write_result w output_path (merged_pages w pdf_files) = WriteOk ->
   exists st',
     merge_pdfs w pdf_files output_path st = (Normal tt, st')
     /\ fs st' output_path = Some (Document (merged_pages w pdf_files))
     /\ In (MsgSuccess (List.length pdf_files) output_path) (stdout st'))
  /\ (write_result w output_path (merged_pages w pdf_files) <> WriteOk ->
      exit_status (fst (merge_pdfs w pdf_files output_path st)) = 1%Z)
  /\ (write_result w output_path (merged_pages w pdf_files) = WriteReportError
      \/ write_result w output_path (merged_pages w pdf_files) = WriteStatError ->
      fs (snd (merge_pdfs w pdf_files output_path st)) output_path
      = Some (Document (merged_pages w pdf_files)))
  /\ ((forall f, In f pdf_files -> pdf_reader w f = None) ->
      merged_pages w pdf_files = []
      /\ fst (merge_loop w pdf_files [] st) = Normal []).
Proof.
  intros Hne.
  destruct (merge_pdfs_nonempty w pdf_files output_path st Hne) as [out ->].
  split; [|split; [|split]].
  - intros Hok. rewrite write_output_ok by assumption.
    eexists. split; [reflexivity|]. cbn [fs stdout]. rewrite path_eqb_refl.
    split; [reflexivity|]. rewrite !in_app_iff. simpl. tauto.
  - intros Hfail. rewrite write_output_exit.
    destruct (write_result w output_path (merged_pages w pdf_files));
      [congruence | reflexivity ..].
  - unfold write_output, write_failed.
    intros [-> | ->]; destruct (error_line_prints w); cbn;
      now rewrite path_eqb_refl.
  - intros Hnone.
    assert (E : merged_pages w pdf_files = [])
      by (unfold merged_pages; now apply merged_pages_unreadable).
    split; [exact E|].
    destruct (merge_loop_result w pdf_files [] st) as [msgs ->].
    cbn [fst]. fold (merged_pages w pdf_files). now rewrite E.
Qed.

Lemma nonempty_candidates_are_written_witness :
  (exists st',
      merge_pdfs (docs_env [] no_reader WriteOk)
                 [child docs "A.pdf"; child docs "B.pdf"]
                 (child docs "out.pdf") empty_state = (Normal tt, st')
      /\ fs st' (child docs "out.pdf") = Some (Document [])
      /\ In (MsgSuccess 2 (child docs "out.pdf")) (stdout st'))
  /\ exit_status
       (fst (merge_pdfs locked_shelf [child docs "A.pdf"; child docs "B.pdf"]
                        (child docs "out.pdf") empty_state)) = 1%Z
  /\ exit_status
       (fst (merge_pdfs mute_shelf [child docs "A.pdf"; child docs "B.pdf"]
                        (child docs "out.pdf") empty_state)) = 1%Z
  /\ fs (snd (merge_pdfs mute_shelf [child docs "A.pdf"; child docs "B.pdf"]
                         (child docs "out.pdf") empty_state))
        (child docs "out.pdf")
     = Some (Document ["A.p1"; "A.p2"; "B.p1"; "B.p2"; "B.p3"]).
Proof.
  split; [|split; [|split]].
  - apply (nonempty_candidates_are_written (docs_env [] no_reader WriteOk)
             [child docs "A.pdf"; child docs "B.pdf"]
             (child docs "out.pdf") empty_state); [discriminate | reflexivity].
  - apply (nonempty_candidates_are_written locked_shelf
             [child docs "A.pdf"; child docs "B.pdf"]
             (child docs "out.pdf") empty_state); discriminate.
  - apply (nonempty_candidates_are_written mute_shelf
             [child docs "A.pdf"; child docs "B.pdf"]
             (child docs "out.pdf") empty_state); discriminate.
  - apply (nonempty_candidates_are_written mute_shelf
             [child docs "A.pdf"; child docs "B.pdf"]
             (child docs "out.pdf") empty_state); [discriminate | now left].
Defined.

(** ** The driver *)

(** The exit status of a run, stage by stage. *)
Lemma run_exit w a st :
  fst (run w a st) =
  let directory := resolve w (Path (arg_directory a)) in
  if negb (path_exists w directory) || negb (path_is_dir w directory) then 1%Z
  else
    match resolve_output directory (Path (arg_output a)) with
    | None => 1%Z
    | Some out =>
        match re_compile w (arg_pattern a) true with
        | None => 1%Z
        | Some rx =>
            match iterdir w directory with
            | None => 1%Z
            | Some entries =>
                match list_sort path_key (matching_files rx directory entries) with
                | inl _ => 1%Z
                | inr [] => 0%Z
                | inr files =>
                    match write_result w out (merged_pages w files) with
                    | WriteOk => 0%Z
                    | _ => 1%Z
                    end
                end
            end
        end
    end.
Proof.
  unfold run, main. cbv zeta.
  set (directory := resolve w (Path (arg_directory a))).
  destruct (negb (path_exists w directory) || negb (path_is_dir w directory));
    [reflexivity|].
  destruct (resolve_output directory (Path (arg_output a))) as [out|]; [|reflexivity].
  unfold bind at 1. cbn [print]. unfold bind at 1. cbn [print].
  unfold bind at 1. rewrite find_matching_pdfs_unfold.
  destruct (re_compile w (arg_pattern a) true) as [rx|]; [|reflexivity].
  destruct (iterdir w directory) as [entries|]; [|reflexivity].
  destruct (list_sort path_key (matching_files rx directory entries))
    as [e|[|f files]]; [reflexivity | reflexivity |].
  match goal with
  | |- context [merge_pdfs w (f :: files) out ?s] =>
      destruct (merge_pdfs_nonempty w (f :: files) out s) as [msgs E];
      [discriminate | rewrite E]
  end.
  match goal with
  | |- context [write_output w ?n ?pages out ?s] =>
      pose proof (write_output_exit w n pages out s) as Hx;
      destruct (write_output w n pages out s) as [o s']
  end.
  simpl in Hx |- *. exact Hx.
Qed.

(** C6, as the claim states it, fails on an output path without a name:
    the directory is valid, the pattern compiles, nothing is written, and
    [with_suffix] raises, so the status is 1. *)
Lemma nameless_output_exits_1 :
  path_exists shelf docs = true
  /\ path_is_dir shelf docs = true
  /\ re_compile shelf "pdf" true = Some (literal_match "pdf" true)
  /\ main shelf (mkArgs "pdf" "" "/docs") empty_state
     = (Uncaught ValueError, empty_state)
  /\ fst (run shelf (mkArgs "pdf" "" "/docs") empty_state) = 1%Z.
Proof. repeat split. Qed.

(** C6, amended.  The status is 1 when the directory is missing or not
    a directory, when the pattern does not compile, and when there are
    candidates and the final [try] does not run to its end (the write
    fails, or the report after it raises); it is 1 as well when the
    output path has no name and when the directory cannot be listed.
    The status is 0 when the run reaches the merge and either no file
    was found or the final [try] runs to its end. *)
Theorem exit_status_causes w a st :
  let directory := resolve w (Path (arg_directory a)) in
  (path_exists w directory = false
   \/ path_is_dir w directory = false
   \/ re_compile w (arg_pattern a) true = None
   \/ resolve_output directory (Path (arg_output a)) = None
   \/ iterdir w directory = None ->
   fst (run w a st) = 1%Z)
  /\ (forall out files st1 st2,
         path_exists w directory = true ->
         path_is_dir w directory = true ->
         resolve_output directory (Path (arg_output a)) = Some out ->
         find_matching_pdfs w directory (arg_pattern a) st1 = (Normal files, st2) ->
         (files <> [] /\ write_result w out (merged_pages w files) <> WriteOk ->
          fst (run w a st) = 1%Z)
         /\ (files = [] \/ write_result w out (merged_pages w files) = WriteOk ->
             fst (run w a st) = 0%Z)).
Proof.
  intros directory. rewrite run_exit. cbv zeta. fold directory. split.
  - intros Hfatal.
    destruct (path_exists w directory); [|reflexivity].
    destruct (path_is_dir w directory); [|reflexivity]. cbn [negb orb].
    destruct (resolve_output directory (Path (arg_output a))); [|reflexivity].
    destruct (re_compile w (arg_pattern a) true); [|reflexivity].
    destruct (iterdir w directory); [|reflexivity].
    destruct Hfatal as [H|[H|[H|[H|H]]]]; discriminate H.
  - intros out files st1 st2 -> -> -> Hfind. cbn [negb orb].
    rewrite find_matching_pdfs_unfold in Hfind.
    destruct (re_compile w (arg_pattern a) true); [|discriminate].
    destruct (iterdir w directory); [|discriminate].
    destruct (list_sort _ _) as [e|sorted]; [discriminate|].
    injection Hfind as -> _. split.
    + intros [Hne Hw]. destruct files as [|f files]; [congruence|].
      destruct (write_result w out (merged_pages w (f :: files)));
        [congruence | reflexivity ..].
    + intros [->|Hw]; [reflexivity|].
      destruct files as [|f files]; [reflexivity | now rewrite Hw].
Qed.

Lemma exit_status_causes_witness :
  fst (run shelf (mkArgs "(" "out" "/docs") empty_state) = 1%Z
  /\ fst (run locked_shelf (mkArgs "pdf" "out" "/docs") empty_state) = 1%Z
  /\ fst (run mute_shelf (mkArgs "pdf" "out" "/docs") empty_state) = 1%Z
  /\ fst (run shelf (mkArgs "zzz" "out" "/docs") empty_state) = 0%Z
  /\ fst (run shelf (mkArgs "pdf" "out" "/docs") empty_state) = 0%Z.
Proof.
  split; [|split; [|split; [|split]]].
  - apply (exit_status_causes shelf (mkArgs "(" "out" "/docs") empty_state).
    right. right. left. reflexivity.
  - apply (proj2 (exit_status_causes locked_shelf (mkArgs "pdf" "out" "/docs")
                    empty_state)
             (child docs "out.pdf") [child docs "A.pdf"; child docs "B.pdf"]
             empty_state empty_state); try reflexivity.
    split; discriminate.
  - apply (proj2 (exit_status_causes mute_shelf (mkArgs "pdf" "out" "/docs")
                    empty_state)
             (child docs "out.pdf") [child docs "A.pdf"; child docs "B.pdf"]
             empty_state empty_state); try reflexivity.
    split; discriminate.
  - apply (proj2 (exit_status_causes shelf (mkArgs "zzz" "out" "/docs") empty_state)
             (child docs "out.pdf") [] empty_state empty_state); try reflexivity.
    now left.
  - apply (proj2 (exit_status_causes shelf (mkArgs "pdf" "out" "/docs") empty_state)
             (child docs "out.pdf") [child docs "A.pdf"; child docs "B.pdf"]
             empty_state empty_state); try reflexivity.
    now right.
Defined.

(** ** The output path *)

Lemma last_app_nonempty {A : Type} (l1 l2 : list A) d :
  l2 <> [] -> last (l1 ++ l2) d = last l2 d.
Proof.
  intros Hne. induction l1 as [|x l1 IH]; [reflexivity|].
  simpl. rewrite IH. destruct (l1 ++ l2) eqn:E; [|reflexivity].
  apply app_eq_nil in E as [_ E]. contradiction.
Qed.

Lemma resolve_output_named directory p :
  path_name p <> "" ->
  resolve_output directory p
  = Some (if is_absolute p
          then mkPath (root p) (removelast (parts p) ++ [output_name p])
          else mkPath (root directory)
                      (parts directory ++ removelast (parts p) ++ [output_name p])).
Proof.
  intros Hne. unfold resolve_output, output_name.
  destruct (String.eqb (Str.lower (path_suffix p)) ".pdf"); cbn [negb].
  - rewrite <- (path_name_parts p Hne). unfold joinpath.
    destruct (is_absolute p); cbn [negb]; [now destruct p | reflexivity].
  - rewrite (with_suffix_pdf p Hne). unfold joinpath, is_absolute. cbn [root parts].
    destruct (String.eqb (root p) ""); reflexivity.
Qed.

(** C4, as the claim states it, fails on an output path without a name:
    the suffix of [Path("")] is not ".pdf", [with_suffix] raises, and
    the run ends there. *)
Lemma nameless_output_raises :
  String.eqb (Str.lower (path_suffix (Path ""))) ".pdf" = false
  /\ with_suffix (Path "") ".pdf" = None
  /\ resolve_output docs (Path "") = None
  /\ resolve_output docs (Path "/") = None
  /\ main shelf (mkArgs "pdf" "" "/docs") empty_state
     = (Uncaught ValueError, empty_state).
Proof. repeat split. Qed.

(** C4, amended.  For an output path that has a name: the path handed
    to the merge ends in a name whose suffix, lowered, is ".pdf"; when
    the given suffix was not ".pdf" in any letter case, that name is the
    stem of the given name followed by ".pdf" (an old suffix is replaced,
    not kept); an absolute path keeps its root and directories, and a
    relative one is appended to the search directory. *)
Theorem output_path_resolved directory output_path :
  path_name output_path <> "" ->
  exists out,
    resolve_output directory output_path = Some out
    /\ Str.lower (path_suffix out) = ".pdf"
    /\ (Str.lower (path_suffix output_path) <> ".pdf" ->
        path_suffix out = ".pdf"
        /\ path_name out = String.append (name_stem (path_name output_path)) ".pdf")
    /\ (Str.lower (path_suffix output_path) = ".pdf" ->
        path_name out = path_name output_path)
    /\ (is_absolute output_path = true ->
        root out = root output_path
        /\ parts out = removelast (parts output_path) ++ [path_name out])
    /\ (is_absolute output_path = false ->
        root out = root directory
        /\ parts out
           = parts directory ++ removelast (parts output_path) ++ [path_name out]).
Proof.
  intros Hne. rewrite (resolve_output_named directory output_path Hne).
  eexists. split; [reflexivity|].
  set (out := if is_absolute output_path then _ else _).
  assert (Hname : path_name out = output_name output_path).
  { subst out. unfold path_name.
    destruct (is_absolute output_path); cbn [parts];
      rewrite ?app_assoc; apply last_last. }
  assert (Hsuffix : Str.lower (path_suffix output_path) <> ".pdf" ->
                    path_suffix out = ".pdf").
  { intros Hs. unfold path_suffix. rewrite Hname. unfold output_name.
    destruct (String.eqb_spec (Str.lower (path_suffix output_path)) ".pdf");
      [contradiction|].
    apply name_suffix_pdf, name_stem_nonempty, Hne. }
  split; [|split; [|split; [|split]]].
  - destruct (String.eqb_spec (Str.lower (path_suffix output_path)) ".pdf") as [E|E].
    + unfold path_suffix. rewrite Hname. unfold output_name.
      fold (path_suffix output_path).
      now rewrite (proj2 (String.eqb_eq _ _) E).
    + now rewrite (Hsuffix E).
  - intros Hs. split; [now apply Hsuffix|]. rewrite Hname. unfold output_name.
    now destruct (String.eqb_spec (Str.lower (path_suffix output_path)) ".pdf").
  - intros Hs. rewrite Hname. unfold output_name.
    now rewrite (proj2 (String.eqb_eq _ _) Hs).
  - intros Habs. rewrite Hname. subst out. rewrite Habs. split; reflexivity.
  - intros Habs. rewrite Hname. subst out. rewrite Habs. split; reflexivity.
Qed.

Lemma output_path_resolved_witness :
  exists out,
    resolve_output docs (Path "merged/all.txt") = Some out
    /\ Str.lower (path_suffix out) = ".pdf"
    /\ (Str.lower (path_suffix (Path "merged/all.txt")) <> ".pdf" ->
        path_suffix out = ".pdf"
        /\ path_name out = String.append (name_stem "all.txt") ".pdf")
    /\ (Str.lower (path_suffix (Path "merged/all.txt")) = ".pdf" ->
        path_name out = "all.txt")
    /\ (is_absolute (Path "merged/all.txt") = true ->
        root out = "" /\ parts out = ["merged"] ++ [path_name out])
    /\ (is_absolute (Path "merged/all.txt") = false ->
        root out = "/" /\ parts out = ["docs"] ++ ["merged"] ++ [path_name out]).
Proof.
  apply (output_path_resolved docs (Path "merged/all.txt")).
  vm_compute. discriminate.
Defined.

(** * Further properties *)

Lemma map_opt_none {A B : Type} (f : A -> option B) l :
  map_opt f l = None <-> exists x, In x l /\ f x = None.
Proof.
  induction l as [|x l IH]; simpl.
  - split; [discriminate | intros (? & [] & _)].
  - destruct (f x) as [y|] eqn:Ex.
    + destruct (map_opt f l) as [ys|].
      * split; [discriminate|]. intros (z & [<-|Hz] & Hn); [congruence|].
        assert (H : Some ys = None) by (apply (proj2 IH); eauto).
        discriminate H.
      * split; [|reflexivity]. intros _.
        destruct (proj1 IH eq_refl) as (z & Hz & Hn). eauto.
    + split; [|reflexivity]. eauto.
Qed.

(** X1.  When the sort can fail.  Two computed keys always compare, so the
    sort never raises [TypeError]; it raises only [ValueError], and only
    when the key of some element is not computed; a key is not computed
    exactly when a piece of the name passes [isdigit] and is rejected by
    [int]; names free of such characters, all ASCII names among them,
    always sort. *)
Theorem sort_fails_only_without_key :
  (forall a b ka kb,
      natural_sort_key a = Some ka -> natural_sort_key b = Some kb ->
      exists r, key_ltb ka kb = Some r)
  /\ (forall names e,
         list_sort path_key names = inl e ->
         e = ValueError /\ exists x, In x names /\ path_key x = None)
  /\ (forall text,
         natural_sort_key text = None <->
         exists piece,
           In piece (re_split_digits text)
           /\ Str.isdigit piece = true /\ Str.int piece = None)
  /\ (forall names,
         (forall x, In x names -> plain (path_name x) = true) ->
         exists sorted, list_sort path_key names = inr sorted).
Proof.
  split; [|split; [|split]].
  - intros a b ka kb Ha Hb.
    apply (key_ltb_shape ka kb true); eapply natural_sort_key_shape; eassumption.
  - intros names e. apply list_sort_error, path_key_shape.
  - intros text. unfold natural_sort_key. split.
    + intros (piece & Hin & H)%map_opt_none. exists piece. split; [exact Hin|].
      unfold convert in H. destruct (Str.isdigit piece); [|discriminate].
      destruct (Str.int piece); [discriminate | auto].
    + intros (piece & Hin & Hd & Hi). apply map_opt_none. exists piece.
      split; [exact Hin|]. unfold convert. now rewrite Hd, Hi.
  - intros names Hplain. apply list_sort_total; [exact path_key_shape|].
    intros x Hx. unfold path_key. now rewrite (plain_has_key _ (Hplain x Hx)).
Qed.

Lemma sort_fails_only_without_key_witness :
  (exists r, key_ltb [KStr "l"; KInt 2; KStr ".pdf"] [KStr "a.pdf"] = Some r)
  /\ exists sorted,
      list_sort path_key [child docs "L10.pdf"; child docs "a.pdf"; child docs "L2.pdf"]
      = inr sorted.
Proof.
  destruct sort_fails_only_without_key as (Hcmp & _ & _ & Hplain).
  split.
  - apply (Hcmp "L2.pdf" "a.pdf"); reflexivity.
  - apply Hplain. intros x [<-|[<-|[<-|[]]]]; reflexivity.
Defined.

Lemma add_pages_before_failure pages : forall writer,
  fst (add_pages pages writer) = writer ++ pages_before_failure pages.
Proof.
  induction pages as [|[p|] rest IH]; intros writer; simpl.
  - now rewrite app_nil_r.
  - now rewrite IH, <- app_assoc.
  - now rewrite app_nil_r.
Qed.

Lemma pages_before_failure_all ps : pages_before_failure (map Some ps) = ps.
Proof. induction ps as [|p ps IH]; simpl; [reflexivity | now rewrite IH]. Qed.

Lemma copy_file_contribution w writer f :
  copy_file w writer f = writer ++ contribution w f.
Proof.
  unfold copy_file, contribution. destruct (pdf_reader w f) as [pages|].
  - apply add_pages_before_failure.
  - now rewrite app_nil_r.
Qed.

Lemma fold_copy_file w pdf_files : forall writer,
  fold_left (copy_file w) pdf_files writer
  = writer ++ concat (map (contribution w) pdf_files).
Proof.
  induction pdf_files as [|f rest IH]; intros writer; simpl.
  - now rewrite app_nil_r.
  - now rewrite IH, copy_file_contribution, app_assoc.
Qed.

(** X2.  What the merge loop collects.  Whatever the writer holds when
    the loop starts, the loop ends normally and has appended, for every
    file in the order of the list, the pages of that file up to the
    first one that raises: all of them when none raises, none when the
    file does not open.  A file that does not open is warned about and
    leaves the writer as it was, and the loop goes on. *)
Theorem merge_loop_collects w pdf_files :
  (forall writer st,
      exists st',
        merge_loop w pdf_files writer st
        = (Normal (writer ++ concat (map (contribution w) pdf_files)), st'))
  /\ (forall f ps, pdf_reader w f = Some (map Some ps) -> contribution w f = ps)
  /\ (forall f, pdf_reader w f = None -> contribution w f = [])
  /\ (forall writer f st,
         pdf_reader w f = None ->
         process_file w writer f st
         = (Normal writer,
            mkState (fs st)
                    (stdout st ++ [MsgProcessing (path_name f);
                                   MsgWarning (path_name f)]))).
Proof.
  split; [|split; [|split]].
  - intros writer st. destruct (merge_loop_result w pdf_files writer st) as [out ->].
    rewrite fold_copy_file. eauto.
  - intros f ps H. unfold contribution. rewrite H.
    apply pages_before_failure_all.
  - intros f H. unfold contribution. now rewrite H.
  - intros writer f st H. unfold process_file, bind, print, ret. rewrite H.
    simpl. now rewrite <- app_assoc.
Qed.

Lemma merge_loop_collects_witness :
  (exists st',
      merge_loop torn_shelf [child docs "C.pdf"; child docs "A.pdf"; child docs "B.pdf"]
                 ["cover"] empty_state
      = (Normal ["cover"; "A.p1"; "B.p1"], st'))
  /\ contribution shelf (child docs "A.pdf") = ["A.p1"; "A.p2"]
  /\ contribution shelf (child docs "C.pdf") = [].
Proof.
  destruct (merge_loop_collects shelf []) as (_ & Hok & Hfail & _).
  split; [|split].
  - apply (merge_loop_collects torn_shelf
             [child docs "C.pdf"; child docs "A.pdf"; child docs "B.pdf"]).
  - apply Hok. reflexivity.
  - apply Hfail. reflexivity.
Defined.

(** X3.  What the search returns.  The list returned holds the selected
    files, each as often as it was selected, in an order in which no file
    has a smaller key than a file before it. *)
Theorem matches_in_natural_order w directory pattern rx entries st files st' :
  re_compile w pattern true = Some rx ->
  iterdir w directory = Some entries ->
  find_matching_pdfs w directory pattern st = (Normal files, st') ->
  Permutation (matching_files rx directory entries) files
  /\ forall i j p q kp kq,
       nth_error files i = Some p -> nth_error files j = Some q ->
       path_key p = Some kp -> path_key q = Some kq ->
       i < j -> key_ltb kq kp = Some false.
Proof.
  intros Hrx Hdir Hfind.
  rewrite find_matching_pdfs_unfold, Hrx, Hdir in Hfind.
  destruct (list_sort _ _) as [e|sorted] eqn:Es; [discriminate|].
  injection Hfind as <- _.
  split; [now apply (list_sort_perm path_key)|].
  intros i j p q kp kq Hi Hj Hp Hq Hij.
  destruct (key_ltb_shape kq kp true (path_key_shape _ _ Hq) (path_key_shape _ _ Hp))
    as [[|] Hr]; [|exact Hr].
  pose proof (list_sort_order path_key _ _ j i q p kq kp Es Hj Hi Hq Hp Hr). lia.
Qed.

Lemma matches_in_natural_order_witness :
  Permutation
    (matching_files (literal_match "l" true) docs
       [mkEntry "L10.pdf" true; mkEntry "notes.txt" true;
        mkEntry "l2.pdf" true; mkEntry "L02.pdf" true;
        mkEntry "L.pdf" false; mkEntry "L2.pdf" true])
    [child docs "l2.pdf"; child docs "L02.pdf"; child docs "L2.pdf";
     child docs "L10.pdf"]
  /\ key_ltb [KStr "l"; KInt 10; KStr ".pdf"] [KStr "l"; KInt 2; KStr ".pdf"]
     = Some false.
Proof.
  destruct (matches_in_natural_order lectures docs "l" (literal_match "l" true)
              [mkEntry "L10.pdf" true; mkEntry "notes.txt" true;
               mkEntry "l2.pdf" true; mkEntry "L02.pdf" true;
               mkEntry "L.pdf" false; mkEntry "L2.pdf" true]
              empty_state
              [child docs "l2.pdf"; child docs "L02.pdf"; child docs "L2.pdf";
               child docs "L10.pdf"]
              empty_state eq_refl eq_refl eq_refl) as [Hperm Horder].
  split; [exact Hperm|].
  apply (Horder 0 3 (child docs "l2.pdf") (child docs "L10.pdf"));
    vm_compute; try reflexivity; lia.
Defined.

(** ** The natural order as an order *)

Lemma key_ltb_self k : key_ltb k k = Some false.
Proof.
  induction k as [|a k IH]; simpl; [reflexivity|].
  now rewrite elem_eqb_cmp, elem_cmp_refl.
Qed.

Lemma key_ltb_shaped k1 k2 b :
  key_shape b k1 = true -> key_shape b k2 = true ->
  key_ltb k1 k2 = Some (match key_cmp k1 k2 with Lt => true | _ => false end).
Proof.
  intros H1 H2. destruct (key_ltb_shape k1 k2 b H1 H2) as [r Hr].
  now rewrite Hr, (key_ltb_cmp _ _ _ Hr).
Qed.

(** X4.  On the keys that [natural_sort_key] computes, [<] is a strict
    total order up to equal keys: no key is smaller than itself, [<] is
    asymmetric and transitive, and of two keys neither of which is
    smaller than the other, both are the same key. *)
Theorem natural_keys_totally_ordered a b c ka kb kc :
  natural_sort_key a = Some ka ->
  natural_sort_key b = Some kb ->
  natural_sort_key c = Some kc ->
  key_ltb ka ka = Some false
  /\ (key_ltb ka kb = Some true -> key_ltb kb ka = Some false)
  /\ (key_ltb ka kb = Some true -> key_ltb kb kc = Some true ->
      key_ltb ka kc = Some true)
  /\ (key_ltb ka kb = Some false -> key_ltb kb ka = Some false -> ka = kb).
Proof.
  intros Ha%natural_sort_key_shape Hb%natural_sort_key_shape
         Hc%natural_sort_key_shape.
  rewrite (key_ltb_shaped ka kb true Ha Hb), (key_ltb_shaped kb ka true Hb Ha),
    (key_ltb_shaped kb kc true Hb Hc), (key_ltb_shaped ka kc true Ha Hc).
  rewrite (key_cmp_antisym ka kb).
  split; [apply key_ltb_self|]. split; [|split].
  - destruct (key_cmp ka kb); simpl; congruence.
  - destruct (key_cmp ka kb) eqn:Eab; try discriminate.
    destruct (key_cmp kb kc) eqn:Ebc; try discriminate.
    now rewrite (key_cmp_lt_trans _ _ _ Eab Ebc).
  - destruct (key_cmp ka kb) eqn:Eab; simpl; try discriminate.
    intros _ _. now apply key_cmp_eq.
Qed.

Lemma natural_keys_totally_ordered_witness :
  key_ltb [KStr "l"; KInt 10; KStr ".pdf"] [KStr "l"; KInt 2; KStr ".pdf"]
  = Some false
  /\ key_ltb [KStr "l"; KInt 2; KStr ".pdf"] [KStr "l"; KInt 123; KStr ".pdf"]
     = Some true.
Proof.
  destruct (natural_keys_totally_ordered "L2.pdf" "L10.pdf" "L123.pdf"
              [KStr "l"; KInt 2; KStr ".pdf"] [KStr "l"; KInt 10; KStr ".pdf"]
              [KStr "l"; KInt 123; KStr ".pdf"] eq_refl eq_refl eq_refl)
    as (_ & Hasym & Htrans & _).
  split; [apply Hasym | apply Htrans]; reflexivity.
Defined.

(** ** Names that differ in one number *)

Lemma string_append_empty s : String.append s "" = s.
Proof. induction s as [|c s IH]; simpl; [reflexivity | now rewrite IH]. Qed.

Lemma split_run_after_run s :
  starts_with_digit s = false -> exists t, split_run s = "" :: t.
Proof.
  destruct s as [|c s]; simpl; [eauto|]. intros ->. eauto.
Qed.

Lemma split_text_one_run d s :
  digit_run d = true -> starts_with_digit s = false ->
  exists t, forall d',
      digit_run d' = true -> split_text (String.append d' s) = "" :: d' :: t.
Proof.
  intros _ Hs. destruct (split_run_after_run s Hs) as [t Et].
  exists t. intros d' Hd'.
  destruct (split_text_digit_run d' s Hd') as (h & t' & E1 & E2).
  rewrite Et in E1. injection E1 as <- <-.
  now rewrite E2, string_append_empty.
Qed.

Lemma split_one_number d1 d2 s :
  digit_run d1 = true -> digit_run d2 = true -> starts_with_digit s = false ->
  forall p,
    ends_in_digit p = false ->
    (exists h pre rest,
        split_text (String.append p (String.append d1 s)) = h :: pre ++ d1 :: rest
        /\ split_text (String.append p (String.append d2 s)) = h :: pre ++ d2 :: rest)
    /\ (p <> "" ->
        exists h pre rest,
          split_run (String.append p (String.append d1 s)) = h :: pre ++ d1 :: rest
          /\ split_run (String.append p (String.append d2 s)) = h :: pre ++ d2 :: rest).
Proof.
  intros Hd1 Hd2 Hs.
  destruct (split_text_one_run d1 s Hd1 Hs) as [t Ht].
  induction p as [|c p IH]; intros Hp.
  - split; [|congruence]. exists "", [], t. simpl. split; now apply Ht.
  - destruct p as [|c' p'].
    + simpl in Hp. cbn [String.append split_text split_run]. rewrite Hp.
      rewrite (Ht d1 Hd1), (Ht d2 Hd2). cbn [cons_head].
      split; [exists (String c ""), [], t | intros _; exists "", [String c ""], t];
        split; reflexivity.
    + assert (Hp' : ends_in_digit (String c' p') = false) by exact Hp.
      destruct (IH Hp') as [(h & pre & rest & E1 & E2) Hrun].
      destruct Hrun as (h' & pre' & rest' & E1' & E2'); [discriminate|].
      change (String.append (String c (String c' p')) ?x)
        with (String c (String.append (String c' p') x)).
      cbn [split_text split_run]. rewrite E1, E2, E1', E2'. cbn [cons_head].
      destruct (Str.is_decimal c); split; try intros _.
      * exists "", (String c h' :: pre'), rest'. split; reflexivity.
      * exists (String c h'), pre', rest'. split; reflexivity.
      * exists (String c h), pre, rest. split; reflexivity.
      * exists "", (String c h :: pre), rest. split; reflexivity.
Qed.

Lemma map_opt_middle {A B : Type} (f : A -> option B) l1 x l2 : forall k,
  map_opt f (l1 ++ x :: l2) = Some k ->
  exists k1 y k2,
    map_opt f l1 = Some k1 /\ f x = Some y /\ map_opt f l2 = Some k2
    /\ k = k1 ++ y :: k2.
Proof.
  induction l1 as [|a l1 IH]; intros k; simpl.
  - destruct (f x) as [y|]; [|discriminate].
    destruct (map_opt f l2) as [k2|]; [|discriminate].
    intros [= <-]. exists [], y, k2. auto.
  - destruct (f a) as [b|]; [|discriminate].
    destruct (map_opt f (l1 ++ x :: l2)) as [k'|]; [|discriminate].
    intros [= <-]. destruct (IH k' eq_refl) as (k1 & y & k2 & E1 & Ex & E2 & ->).
    rewrite E1. exists (b :: k1), y, k2. auto.
Qed.

Lemma key_ltb_common_prefix kp k1 k2 :
  key_ltb (kp ++ k1) (kp ++ k2) = key_ltb k1 k2.
Proof.
  induction kp as [|a kp IH]; simpl; [reflexivity|].
  now rewrite elem_eqb_cmp, elem_cmp_refl.
Qed.

(** X5.  Two names that differ only in one number are ordered by that
    number: with the same text before and after (the text before not
    ending in a digit, the text after not starting with one), the name
    with the smaller number has the smaller key, whatever the lengths of
    the two digit runs. *)
Theorem one_number_decides p d1 d2 s k1 k2 :
  ends_in_digit p = false -> starts_with_digit s = false ->
  digit_run d1 = true -> digit_run d2 = true ->
  natural_sort_key (String.append p (String.append d1 s)) = Some k1 ->
  natural_sort_key (String.append p (String.append d2 s)) = Some k2 ->
  key_ltb k1 k2 = Some (Str.digits_value 0 d1 <? Str.digits_value 0 d2)%N.
Proof.
  intros Hp Hs Hd1 Hd2 H1 H2.
  destruct (split_one_number d1 d2 s Hd1 Hd2 Hs p Hp)
    as [(h & pre & rest & E1 & E2) _].
  unfold natural_sort_key, re_split_digits in H1, H2.
  rewrite E1 in H1. rewrite E2 in H2.
  change (h :: pre ++ d1 :: rest) with ((h :: pre) ++ d1 :: rest) in H1.
  change (h :: pre ++ d2 :: rest) with ((h :: pre) ++ d2 :: rest) in H2.
  apply map_opt_middle in H1 as (kp1 & y1 & kr1 & Ep1 & Ey1 & Er1 & ->).
  apply map_opt_middle in H2 as (kp2 & y2 & kr2 & Ep2 & Ey2 & Er2 & ->).
  rewrite (convert_digit_run _ Hd1) in Ey1. rewrite (convert_digit_run _ Hd2) in Ey2.
  injection Ey1 as <-. injection Ey2 as <-.
  assert (kp2 = kp1) as -> by congruence. assert (kr2 = kr1) as -> by congruence.
  rewrite key_ltb_common_prefix. simpl.
  destruct (N.eqb_spec (Str.digits_value 0 d1) (Str.digits_value 0 d2)) as [->|Hne];
    [|reflexivity].
  now rewrite key_ltb_self, N.ltb_irrefl.
Qed.

Lemma one_number_decides_witness :
  key_ltb [KStr "week "; KInt 9; KStr " notes.pdf"]
          [KStr "week "; KInt 10; KStr " notes.pdf"]
  = Some (Str.digits_value 0 "9" <? Str.digits_value 0 "010")%N.
Proof.
  apply (one_number_decides "Week " "9" "010" " notes.pdf"); reflexivity.
Defined.

(** ** Names without digits *)

Lemma split_text_no_digit s : text_piece s = true -> split_text s = [s].
Proof.
  unfold text_piece. induction s as [|c s IH]; simpl; [reflexivity|].
  rewrite andb_true_iff, negb_true_iff. intros [-> Hs]. now rewrite IH.
Qed.

(** X6.  Names without any digit are ordered as text, letter case
    ignored: the key of such a name is the one-element list holding the
    lowered name, and two such keys compare as the lowered names do. *)
Theorem digit_free_names_order_as_text a b ka kb :
  text_piece a = true -> text_piece b = true ->
  natural_sort_key a = Some ka -> natural_sort_key b = Some kb ->
  ka = [KStr (Str.lower a)]
  /\ kb = [KStr (Str.lower b)]
  /\ key_ltb ka kb = Some (Str.ltb (Str.lower a) (Str.lower b)).
Proof.
  intros Ta Tb Ha Hb. unfold natural_sort_key, re_split_digits in Ha, Hb.
  rewrite (split_text_no_digit _ Ta) in Ha. rewrite (split_text_no_digit _ Tb) in Hb.
  simpl in Ha, Hb.
  destruct (convert a) as [x|] eqn:Ea; [|discriminate].
  destruct (convert b) as [y|] eqn:Eb; [|discriminate].
  injection Ha as <-. injection Hb as <-.
  rewrite (convert_text_piece _ _ Ta Ea), (convert_text_piece _ _ Tb Eb).
  repeat split. simpl. rewrite string_eqb_compare.
  unfold Str.ltb, String.ltb.
  now destruct (String.compare (Str.lower a) (Str.lower b)).
Qed.

Lemma digit_free_names_order_as_text_witness :
  [KStr "beta.pdf"] = [KStr (Str.lower "Beta.pdf")]
  /\ [KStr "alpha.pdf"] = [KStr (Str.lower "alpha.pdf")]
  /\ key_ltb [KStr "beta.pdf"] [KStr "alpha.pdf"]
     = Some (Str.ltb (Str.lower "Beta.pdf") (Str.lower "alpha.pdf")).
Proof.
  apply (digit_free_names_order_as_text "Beta.pdf" "alpha.pdf"); reflexivity.
Defined.

(** ** The order of enumeration *)

Lemma filter_perm {A : Type} (f : A -> bool) l1 l2 :
  Permutation l1 l2 -> Permutation (filter f l1) (filter f l2).
Proof.
  induction 1 as [|x l1 l2 _ IH|x y l|l1 l2 l3 _ IH1 _ IH2]; simpl.
  - constructor.
  - destruct (f x); [now constructor | exact IH].
  - destruct (f x), (f y); try reflexivity. apply perm_swap.
  - etransitivity; eassumption.
Qed.

Lemma keyed_sorted_by {A : Type} (keyfn : A -> option key) (keyed : list (key * A)) :
  StronglySorted key_le keyed ->
  Forall (keyed_by keyfn) keyed ->
  StronglySorted (le_by keyfn) (map snd keyed).
Proof.
  induction 1 as [|[k x] keyed Hs IH Hx]; intros Hk; simpl; [constructor|].
  inversion_clear Hk as [|? ? Kx Kr]. constructor; [now apply IH|].
  rewrite Forall_forall in Hx, Kr |- *.
  intros y (ky & <- & Hin)%in_map_iff.
  exists k, (fst ky). repeat split.
  - exact Kx.
  - exact (Kr _ Hin).
  - exact (Hx _ Hin).
Qed.

Lemma list_sort_sorted {A : Type} (keyfn : A -> option key) l sorted :
  list_sort keyfn l = inr sorted -> StronglySorted (le_by keyfn) sorted.
Proof.
  intros (keyed & keyed' & _ & Es & -> & _ & Hf)%list_sort_inr.
  apply keyed_sorted_by; [|exact Hf]. exact (sort_keyed_sorted _ _ Es).
Qed.

(** Two sorted lists with the same elements are one list, when elements
    that are not greater than each other are equal. *)
Lemma sorted_perm_unique {A : Type} (R : A -> A -> Prop) (l1 : list A) :
  forall l2,
    StronglySorted R l1 -> StronglySorted R l2 -> Permutation l1 l2 ->
    (forall a b, In a l1 -> In b l1 -> R a b -> R b a -> a = b) ->
    l1 = l2.
Proof.
  induction l1 as [|a l1 IH]; intros l2 H1 H2 Hp Hanti.
  - now apply Permutation_nil in Hp.
  - destruct l2 as [|b l2].
    { symmetry in Hp. apply Permutation_nil in Hp. discriminate. }
    inversion_clear H1 as [|? ? H1' Ha]. inversion_clear H2 as [|? ? H2' Hb].
    rewrite Forall_forall in Ha, Hb.
    assert (Hab : a = b).
    { assert (Hina : In a (b :: l2)) by (apply (Permutation_in _ Hp); now left).
      assert (Hinb : In b (a :: l1))
        by (apply (Permutation_in _ (Permutation_sym Hp)); now left).
      destruct Hina as [->|Hina]; [reflexivity|].
      destruct Hinb as [->|Hinb]; [reflexivity|].
      apply Hanti; [now left | now right | now apply Ha | now apply Hb]. }
    subst b. f_equal. apply IH; auto.
    + now apply Permutation_cons_inv in Hp.
    + intros x y Hx Hy. apply Hanti; now right.
Qed.

(** X7.  The order in which the directory is enumerated does not show in
    the result when no two candidates of different names share a key:
    two listings of the same entries give the same list of files. *)
Theorem enumeration_order_is_irrelevant
        w w' directory pattern rx entries entries' st st' files files' s s' :
  re_compile w pattern true = Some rx ->
  re_compile w' pattern true = Some rx ->
  iterdir w directory = Some entries ->
  iterdir w' directory = Some entries' ->
  Permutation entries entries' ->
  (forall e1 e2,
      In e1 entries -> In e2 entries ->
      is_candidate rx directory e1 = true ->
      is_candidate rx directory e2 = true ->
      natural_sort_key (entry_name e1) = natural_sort_key (entry_name e2) ->
      entry_name e1 = entry_name e2) ->
  find_matching_pdfs w directory pattern st = (Normal files, s) ->
  find_matching_pdfs w' directory pattern st' = (Normal files', s') ->
  files = files'.
Proof.
  intros Hrx Hrx' Hls Hls' Hperm Hinj Hfind Hfind'.
  rewrite find_matching_pdfs_unfold, Hrx, Hls in Hfind.
  rewrite find_matching_pdfs_unfold, Hrx', Hls' in Hfind'.
  destruct (list_sort path_key (matching_files rx directory entries))
    as [e|sorted] eqn:Es; [discriminate|].
  destruct (list_sort path_key (matching_files rx directory entries'))
    as [e|sorted'] eqn:Es'; [discriminate|].
  injection Hfind as <- _. injection Hfind' as <- _.
  pose proof (list_sort_perm _ _ _ Es) as P1.
  pose proof (list_sort_perm _ _ _ Es') as P2.
  apply (sorted_perm_unique (le_by path_key)).
  - exact (list_sort_sorted _ _ _ Es).
  - exact (list_sort_sorted _ _ _ Es').
  - rewrite <- P1, <- P2. unfold matching_files.
    now apply Permutation_map, filter_perm.
  - intros a b Ha Hb (ka & kb & Ka & Kb & Hle) (kb' & ka' & Kb' & Ka' & Hge).
    apply (Permutation_in _ (Permutation_sym P1)) in Ha, Hb.
    apply in_matching_files in Ha as (e1 & He1 & -> & Hc1).
    apply in_matching_files in Hb as (e2 & He2 & -> & Hc2).
    assert (ka' = ka) as -> by congruence. assert (kb' = kb) as -> by congruence.
    rewrite (key_cmp_antisym ka kb) in Hge.
    assert (Heq : ka = kb).
    { apply key_cmp_eq. destruct (key_cmp ka kb); simpl in *; congruence. }
    subst kb. unfold path_key in Ka, Kb. rewrite path_name_child in Ka, Kb.
    f_equal. apply Hinj; auto. congruence.
Qed.

Lemma enumeration_order_is_irrelevant_witness :
  [child docs "A.pdf"; child docs "B.pdf"] = [child docs "A.pdf"; child docs "B.pdf"]
  /\ find_matching_pdfs shelf docs "pdf" empty_state
     = (Normal [child docs "A.pdf"; child docs "B.pdf"], empty_state)
  /\ find_matching_pdfs shelf_reversed docs "pdf" empty_state
     = (Normal [child docs "A.pdf"; child docs "B.pdf"], empty_state).
Proof.
  split; [|split; reflexivity].
  apply (enumeration_order_is_irrelevant shelf shelf_reversed docs "pdf"
           (literal_match "pdf" true)
           [mkEntry "B.pdf" true; mkEntry "A.pdf" true]
           [mkEntry "A.pdf" true; mkEntry "B.pdf" true]
           empty_state empty_state
           [child docs "A.pdf"; child docs "B.pdf"]
           [child docs "A.pdf"; child docs "B.pdf"]
           empty_state empty_state); try reflexivity.
  - apply perm_swap.
  - intros e1 e2 [<-|[<-|[]]] [<-|[<-|[]]] _ _; vm_compute; congruence.
Defined.

(** ** What a run prints *)

Lemma add_pages_completed pages : forall writer,
  snd (add_pages pages writer)
  = forallb (fun p => match p with Some _ => true | None => false end) pages.
Proof.
  induction pages as [|[p|] rest IH]; intros writer; simpl; auto.
Qed.

Lemma process_file_report w writer f st :
  process_file w writer f st
  = (Normal (copy_file w writer f),
     mkState (fs st) (stdout st ++ file_report w f)).
Proof.
  unfold process_file, copy_file, file_report, reads_fully, bind, print, ret.
  cbn [fs stdout].
  destruct (pdf_reader w f) as [pages|].
  - rewrite <- (add_pages_completed pages writer).
    destruct (add_pages pages writer) as [writer' [|]]; cbn [fst snd fs stdout].
    + reflexivity.
    + now rewrite <- app_assoc.
  - cbn [fs stdout]. now rewrite <- app_assoc.
Qed.

Lemma merge_loop_report w pdf_files : forall writer st,
  merge_loop w pdf_files writer st
  = (Normal (fold_left (copy_file w) pdf_files writer),
     mkState (fs st) (stdout st ++ flat_map (file_report w) pdf_files)).
Proof.
  induction pdf_files as [|f rest IH]; intros writer st; cbn [merge_loop].
  - unfold ret. simpl. rewrite app_nil_r. now destruct st.
  - unfold bind. rewrite process_file_report, IH. cbn [fs stdout flat_map fold_left].
    now rewrite <- app_assoc.
Qed.

Lemma print_listing_report pdf_files : forall i st,
  print_listing i pdf_files st
  = (Normal tt, mkState (fs st) (stdout st ++ listing_report i pdf_files)).
Proof.
  induction pdf_files as [|f rest IH]; intros i st; cbn [print_listing listing_report].
  - unfold ret. rewrite app_nil_r. now destruct st.
  - unfold bind, print. rewrite IH. cbn [fs stdout]. now rewrite <- app_assoc.
Qed.

Lemma write_output_report w n writer output_path st :
  stdout (snd (write_output w n writer output_path st))
  = stdout st ++ write_report w n writer output_path.
Proof.
  unfold write_output, write_report, write_failed.
  destruct (write_result w output_path writer), (error_line_prints w); cbn;
    now rewrite <- ?app_assoc, ?app_nil_r.
Qed.

Lemma merge_pdfs_unfold w pdf_files output_path st :
  pdf_files <> [] ->
  merge_pdfs w pdf_files output_path st
  = write_output w (List.length pdf_files) (merged_pages w pdf_files) output_path
      (mkState (fs st)
         (stdout st
            ++ MsgFound (List.length pdf_files)
               :: listing_report 1 pdf_files
            ++ MsgMerging (path_name output_path)
               :: flat_map (file_report w) pdf_files)).
Proof.
  destruct pdf_files as [|f rest]; [congruence|]. intros _.
  unfold merge_pdfs, bind, print. rewrite print_listing_report. cbn [fs stdout].
  rewrite merge_loop_report. cbn [fs stdout]. unfold merged_pages.
  do 2 f_equal. rewrite <- !app_assoc. reflexivity.
Qed.

Lemma in_file_reports w pdf_files name :
  In (MsgWarning name) (flat_map (file_report w) pdf_files) <->
  exists f, In f pdf_files /\ path_name f = name /\ reads_fully w f = false.
Proof.
  rewrite in_flat_map. unfold file_report. split.
  - intros (f & Hf & [H|H]); [discriminate|].
    destruct (reads_fully w f) eqn:E; [destruct H|].
    destruct H as [[= <-]|[]]. eauto.
  - intros (f & Hf & <- & E). exists f. split; [exact Hf|]. rewrite E.
    right. now left.
Qed.

(** X8.  What a merge prints.  For a non-empty list: the number of
    candidates, the candidates numbered from 1 in the order of the list,
    the name of the output, then for every candidate in that order a
    line that it is processed, followed by a warning when it did not
    open or one of its pages raised, and last the result of the write.
    A warning for a name is printed exactly when a candidate of that
    name was not read to its end. *)
Theorem merge_transcript w pdf_files output_path st :
  pdf_files <> [] ->
  stdout (snd (merge_pdfs w pdf_files output_path st))
  = stdout st
      ++ MsgFound (List.length pdf_files) :: listing_report 1 pdf_files
      ++ MsgMerging (path_name output_path) :: flat_map (file_report w) pdf_files
      ++ write_report w (List.length pdf_files) (merged_pages w pdf_files) output_path
  /\ forall name,
      In (MsgWarning name) (flat_map (file_report w) pdf_files) <->
      exists f, In f pdf_files /\ path_name f = name /\ reads_fully w f = false.
Proof.
  intros Hne. split; [|intros name; apply in_file_reports].
  rewrite (merge_pdfs_unfold w pdf_files output_path st Hne), write_output_report.
  cbn [stdout]. rewrite <- !app_assoc. cbn [app]. rewrite <- !app_assoc. reflexivity.
Qed.

Lemma merge_transcript_witness :
  stdout (snd (merge_pdfs torn_shelf [child docs "A.pdf"; child docs "B.pdf"]
                          (child docs "out.pdf") empty_state))
  = [MsgFound 2; MsgListItem 1 "A.pdf"; MsgListItem 2 "B.pdf";
     MsgMerging "out.pdf";
     MsgProcessing "A.pdf"; MsgWarning "A.pdf"; MsgProcessing "B.pdf";
     MsgSuccess 2 (child docs "out.pdf"); MsgOutputSize].
Proof.
  destruct (merge_transcript torn_shelf [child docs "A.pdf"; child docs "B.pdf"]
              (child docs "out.pdf") empty_state) as [H _]; [discriminate|].
  rewrite H. reflexivity.
Defined.

(** ** What a run leaves alone *)

Lemma keeps_refl q st : keeps q st st.
Proof. split; [reflexivity|]. exists []. now rewrite app_nil_r. Qed.

Lemma keeps_trans q st1 st2 st3 : keeps q st1 st2 -> keeps q st2 st3 -> keeps q st1 st3.
Proof.
  intros [F1 [o1 S1]] [F2 [o2 S2]]. split; [congruence|].
  exists (o1 ++ o2). now rewrite S2, S1, app_assoc.
Qed.

Lemma keeps_printed q st out : keeps q st (mkState (fs st) (stdout st ++ out)).
Proof. split; [reflexivity|]. now exists out. Qed.

Lemma find_matching_pdfs_keeps q w directory pattern st :
  keeps q st (snd (find_matching_pdfs w directory pattern st)).
Proof.
  rewrite find_matching_pdfs_unfold.
  destruct (re_compile w pattern true); [|apply keeps_printed].
  destruct (iterdir w directory); [|apply keeps_refl].
  destruct (list_sort _ _); apply keeps_refl.
Qed.

Lemma write_output_keeps q w n writer output_path st :
  q <> output_path -> same_file w q output_path = false ->
  keeps q st (snd (write_output w n writer output_path st)).
Proof.
  intros Hq Halias.
  assert (Hne : path_eqb q output_path = false).
  { destruct (path_eqb q output_path) eqn:E; [|reflexivity].
    now apply path_eqb_eq in E. }
  split; [|rewrite write_output_report; eauto].
  unfold write_output, write_failed.
  destruct (write_result w output_path writer), (error_line_prints w); cbn;
    now rewrite ?Hne, ?Halias.
Qed.

Lemma merge_pdfs_keeps q w pdf_files output_path st :
  q <> output_path -> same_file w q output_path = false ->
  keeps q st (snd (merge_pdfs w pdf_files output_path st)).
Proof.
  intros Hq Halias. destruct pdf_files as [|f rest].
  - apply keeps_printed.
  - rewrite merge_pdfs_unfold by discriminate.
    eapply keeps_trans; [|now apply write_output_keeps]. apply keeps_printed.
Qed.

(** X9.  A run writes to no file but the one its output path names:
    every path that is not the resolved output path and does not name
    the same file holds afterwards what it held before, also when the
    run fails; and a run whose output path cannot be resolved changes no
    path at all.  What was printed before the run is still the beginning
    of what is printed after it. *)
Theorem only_the_output_is_written w a st q :
  (forall out,
      resolve_output (resolve w (Path (arg_directory a))) (Path (arg_output a))
      = Some out -> q <> out /\ same_file w q out = false) ->
  fs (snd (run w a st)) q = fs st q
  /\ exists printed, stdout (snd (run w a st)) = stdout st ++ printed.
Proof.
  intros Hq. change (keeps q st (snd (run w a st))).
  unfold run, main.
  destruct (negb (path_exists w (resolve w (Path (arg_directory a))))
            || negb (path_is_dir w (resolve w (Path (arg_directory a))))).
  { apply keeps_printed. }
  destruct (resolve_output _ _) as [out|] eqn:Hout; [|apply keeps_refl].
  destruct (Hq out eq_refl) as [Hne Halias].
  unfold bind at 1. cbn [print]. unfold bind at 1. cbn [print]. unfold bind at 1.
  match goal with
  | |- context [find_matching_pdfs w ?d ?p ?s] =>
      pose proof (find_matching_pdfs_keeps q w d p s) as Hfind;
      destruct (find_matching_pdfs w d p s) as [[files|code|e] s1]
  end; cbn [snd] in Hfind |- *.
  - pose proof (merge_pdfs_keeps q w files out s1 Hne Halias) as Hmerge.
    destruct (merge_pdfs w files out s1) as [o s2]. cbn [snd] in Hmerge |- *.
    eapply keeps_trans; [|eapply keeps_trans; [exact Hfind | exact Hmerge]].
    split; [reflexivity|]. cbn [stdout]. rewrite <- app_assoc. eauto.
  - eapply keeps_trans; [|exact Hfind].
    split; [reflexivity|]. cbn [stdout]. rewrite <- app_assoc. eauto.
  - eapply keeps_trans; [|exact Hfind].
    split; [reflexivity|]. cbn [stdout]. rewrite <- app_assoc. eauto.
Qed.

Lemma only_the_output_is_written_witness :
  (fs (snd (run dotted_shelf (mkArgs "pdf" "sub/../A.pdf" "/docs") empty_state))
      (child docs "B.pdf")
   = fs empty_state (child docs "B.pdf")
   /\ exists printed,
       stdout (snd (run dotted_shelf (mkArgs "pdf" "sub/../A.pdf" "/docs") empty_state))
       = stdout empty_state ++ printed)
  /\ fs (snd (run dotted_shelf (mkArgs "pdf" "sub/../A.pdf" "/docs") empty_state))
        (child docs "A.pdf")
     = Some (Document ["A.p1"; "A.p2"; "B.p1"; "B.p2"; "B.p3"]).
Proof.
  split; [|reflexivity].
  apply (only_the_output_is_written dotted_shelf
           (mkArgs "pdf" "sub/../A.pdf" "/docs") empty_state).
  intros out [= <-]. split; [discriminate | reflexivity].
Defined.

(** ** A whole run *)

Lemma find_matching_pdfs_any_state w directory pattern st st' files s s' :
  find_matching_pdfs w directory pattern st = (Normal files, s) ->
  find_matching_pdfs w directory pattern st' = (Normal files, s') -> s' = st'.
Proof.
  rewrite !find_matching_pdfs_unfold.
  destruct (re_compile w pattern true); [|discriminate].
  destruct (iterdir w directory); [|discriminate].
  destruct (list_sort _ _); [discriminate|]. now intros _ [= _ <-].
Qed.

Lemma find_matching_pdfs_returns w directory pattern st files s :
  find_matching_pdfs w directory pattern st = (Normal files, s) ->
  forall st', find_matching_pdfs w directory pattern st' = (Normal files, st').
Proof.
  rewrite find_matching_pdfs_unfold. intros H st'. rewrite find_matching_pdfs_unfold.
  destruct (re_compile w pattern true); [|discriminate].
  destruct (iterdir w directory); [|discriminate].
  destruct (list_sort _ _); [discriminate|]. now injection H as <- _.
Qed.

(** X10.  A run in which every stage succeeds.  With a valid directory,
    an output path that resolves, a search that returns at least one
    file and a final [try] that runs to its end (the write and the two
    lines after it), the status is 0, the document stored
    at the resolved output path holds, for the files in the order the
    search returned them, each file's pages up to its first failing page,
    and the success message carries the number of files found. *)
Theorem successful_run w a st out files s1 s2 :
  path_exists w (resolve w (Path (arg_directory a))) = true ->
  path_is_dir w (resolve w (Path (arg_directory a))) = true ->
  resolve_output (resolve w (Path (arg_directory a))) (Path (arg_output a)) = Some out ->
  find_matching_pdfs w (resolve w (Path (arg_directory a))) (arg_pattern a) s1
  = (Normal files, s2) ->
  files <> [] ->
  write_result w out (concat (map (contribution w) files)) = WriteOk ->
  fst (run w a st) = 0%Z
  /\ fs (snd (run w a st)) out
     = Some (Document (concat (map (contribution w) files)))
  /\ In (MsgSuccess (List.length files) out) (stdout (snd (run w a st))).
Proof.
  intros Hex Hdir Hout Hfind Hne Hwrite.
  assert (Hpages : merged_pages w files = concat (map (contribution w) files)).
  { unfold merged_pages. now rewrite fold_copy_file. }
  assert (Hrun : exists st',
             run w a st = (0%Z, st')
             /\ fs st' out = Some (Document (concat (map (contribution w) files)))
             /\ In (MsgSuccess (List.length files) out) (stdout st')).
  { unfold run, main. rewrite Hex, Hdir, Hout. cbn [negb orb].
    unfold bind at 1. cbn [print]. unfold bind at 1. cbn [print]. unfold bind at 1.
    rewrite (find_matching_pdfs_returns _ _ _ _ _ _ Hfind).
    rewrite (merge_pdfs_unfold w files out _ Hne), Hpages.
    rewrite write_output_ok by assumption. cbn [exit_status].
    eexists. split; [reflexivity|]. split.
    - cbn [fs]. now rewrite path_eqb_refl.
    - cbn [stdout]. rewrite !in_app_iff. left. right. now left. }
  destruct Hrun as (st' & -> & Hfs & Hmsg). auto.
Qed.

Lemma successful_run_witness :
  fst (run shelf (mkArgs "pdf" "out" "/docs") empty_state) = 0%Z
  /\ fs (snd (run shelf (mkArgs "pdf" "out" "/docs") empty_state))
        (child docs "out.pdf")
     = Some (Document ["A.p1"; "A.p2"; "B.p1"; "B.p2"; "B.p3"])
  /\ In (MsgSuccess 2 (child docs "out.pdf"))
        (stdout (snd (run shelf (mkArgs "pdf" "out" "/docs") empty_state))).
Proof.
  apply (successful_run shelf (mkArgs "pdf" "out" "/docs") empty_state
           (child docs "out.pdf") [child docs "A.pdf"; child docs "B.pdf"]
           empty_state empty_state); try reflexivity.
  discriminate.
Defined.

(** ** The resolved output path, resolved again *)

Lemma resolve_output_has_name directory p out :
  resolve_output directory p = Some out -> path_name p <> "".
Proof.
  intros H Hname. unfold resolve_output, with_suffix, path_suffix in H.
  rewrite Hname in H. simpl in H. discriminate.
Qed.

Lemma output_name_suffix p :
  path_name p <> "" -> Str.lower (name_suffix (output_name p)) = ".pdf".
Proof.
  intros Hne. unfold output_name.
  destruct (String.eqb_spec (Str.lower (path_suffix p)) ".pdf") as [E|_].
  - exact E.
  - now rewrite (name_suffix_pdf _ (name_stem_nonempty _ Hne)).
Qed.

(** X11.  When the search directory is absolute, as [resolve()] makes it,
    the output path that is resolved is absolute and final: resolving it
    again, against any directory, gives it back unchanged. *)
Theorem resolved_output_is_final directory directory' p out :
  is_absolute directory = true ->
  resolve_output directory p = Some out ->
  is_absolute out = true /\ resolve_output directory' out = Some out.
Proof.
  intros Habs H. pose proof (resolve_output_has_name _ _ _ H) as Hne.
  rewrite (resolve_output_named directory p Hne) in H. injection H as <-.
  set (out := if is_absolute p then _ else _).
  assert (Hname : path_name out = output_name p).
  { subst out. unfold path_name.
    destruct (is_absolute p); cbn [parts]; rewrite ?app_assoc; apply last_last. }
  assert (Hroot : is_absolute out = true).
  { subst out. destruct (is_absolute p) eqn:E; [exact E | exact Habs]. }
  split; [exact Hroot|].
  unfold resolve_output, path_suffix. rewrite Hname, (output_name_suffix p Hne).
  rewrite String.eqb_refl. cbn [negb]. now rewrite Hroot.
Qed.

Lemma resolved_output_is_final_witness :
  is_absolute (mkPath "/" ["docs"; "merged"; "all.pdf"]) = true
  /\ resolve_output (Path "/elsewhere") (mkPath "/" ["docs"; "merged"; "all.pdf"])
     = Some (mkPath "/" ["docs"; "merged"; "all.pdf"]).
Proof.
  apply (resolved_output_is_final docs (Path "/elsewhere") (Path "merged/all.txt"));
    reflexivity.
Defined.

(** ** Which names pass the extension test *)

Lemma substring_split s : forall i,
  i <= String.length s ->
  s = String.append (substring 0 i s) (substring i (String.length s - i) s).
Proof.
  induction s as [|c s IH]; intros [|i] Hi; simpl in *; try reflexivity; try lia.
  - now rewrite substring_whole.
  - now rewrite <- (IH i) by lia.
Qed.

Lemma lower_char_is_dot c : Str.lower_char c = "."%char -> c = "."%char.
Proof. each_char c; vm_compute; intros H; try reflexivity; discriminate H. Qed.

Lemma lower_pdf_shape ext :
  Str.lower ext = ".pdf" -> Str.rfind_dot ext = Some 0 /\ String.length ext = 4.
Proof.
  destruct ext as [|c1 [|c2 [|c3 [|c4 [|c5 ext]]]]]; simpl; try discriminate.
  intros [= H1 H2 H3 H4]. apply lower_char_is_dot in H1. subst c1.
  assert (Hnot : forall c x, Str.lower_char c = x -> x <> "."%char ->
                             Ascii.eqb c "." = false).
  { intros c x Hc Hx. destruct (Ascii.eqb_spec c "."%char) as [->|]; [|reflexivity].
    now destruct Hx. }
  rewrite (Hnot c4 _ H4), (Hnot c3 _ H3), (Hnot c2 _ H2) by discriminate.
  split; reflexivity.
Qed.

Lemma lower_suffix_pdf_iff name :
  Str.lower (name_suffix name) = ".pdf" <->
  exists stem ext,
    name = String.append stem ext /\ stem <> "" /\ Str.lower ext = ".pdf".
Proof.
  split.
  - intros H. unfold name_suffix in H.
    destruct (Str.rfind_dot name) as [i|] eqn:Ei; [|discriminate].
    destruct (Nat.ltb 0 i) eqn:E0; [|discriminate].
    destruct (Nat.ltb i (String.length name - 1)) eqn:E1; [|discriminate].
    simpl in H. apply Nat.ltb_lt in E0, E1.
    exists (substring 0 i name), (substring i (String.length name - i) name).
    split; [apply substring_split; lia|]. split; [|exact H].
    intros Hempty.
    assert (Hl : String.length (substring 0 i name) = i)
      by (apply substring_length; lia).
    rewrite Hempty in Hl. simpl in Hl. lia.
  - intros (stem & ext & -> & Hne & Hext).
    destruct (lower_pdf_shape ext Hext) as [Hdot Hlen].
    unfold name_suffix.
    rewrite (rfind_dot_append stem ext 0 Hdot), Nat.add_0_r.
    rewrite string_length_append, Hlen.
    assert (Hpos : 0 < String.length stem)
      by (destruct stem; simpl; [congruence | lia]).
    replace (Nat.ltb 0 (String.length stem)) with true
      by (symmetry; apply Nat.ltb_lt; lia).
    replace (Nat.ltb (String.length stem) (String.length stem + 4 - 1)) with true
      by (symmetry; apply Nat.ltb_lt; lia).
    simpl andb. cbv iota.
    replace (String.length stem + 4 - String.length stem) with 4 by lia.
    rewrite substring_skip, <- Hlen, substring_whole. exact Hext.
Qed.

(** X12.  The extension test of the search accepts exactly the names
    made of a non-empty stem followed by ".pdf" in any letter case; a
    name that is only ".pdf", and a name without that ending, is never
    a candidate, whatever the pattern. *)
Theorem pdf_extension_test :
  (forall name,
      Str.lower (name_suffix name) = ".pdf" <->
      exists stem ext,
        name = String.append stem ext /\ stem <> "" /\ Str.lower ext = ".pdf")
  /\ (forall rx directory e,
         is_candidate rx directory e = true ->
         exists stem ext,
           entry_name e = String.append stem ext
           /\ stem <> "" /\ Str.lower ext = ".pdf").
Proof.
  pose proof lower_suffix_pdf_iff as Hiff.
  split; [exact Hiff|].
  intros rx directory e (_ & Hs & _)%is_candidate_iff. now apply Hiff.
Qed.

Lemma pdf_extension_test_witness :
  Str.lower (name_suffix "Scan.01.PdF") = ".pdf"
  /\ exists stem ext,
      entry_name (mkEntry "L2.pdf" true) = String.append stem ext
      /\ stem <> "" /\ Str.lower ext = ".pdf".
Proof.
  destruct pdf_extension_test as [Hiff Hcand]. split.
  - apply Hiff. exists "Scan.01", ".PdF". repeat split. discriminate.
  - apply (Hcand (literal_match "l" true) docs). reflexivity.
Defined.

(** ** No file twice *)

Lemma child_injective directory n1 n2 :
  child directory n1 = child directory n2 -> n1 = n2.
Proof.
  unfold child. intros [= H]. now apply app_inj_tail in H as [_ H].
Qed.

Lemma matching_files_nodup rx directory entries :
  NoDup (map entry_name entries) -> NoDup (matching_files rx directory entries).
Proof.
  unfold matching_files.
  induction entries as [|e entries IH]; simpl; intros Hnd; [constructor|].
  inversion_clear Hnd as [|? ? Hnotin Hnd'].
  destruct (is_candidate rx directory e); [|now apply IH].
  simpl. constructor; [|now apply IH].
  intros (e' & He' & Hin)%in_map_iff. apply filter_In in Hin as [Hin _].
  apply child_injective in He'. apply Hnotin. rewrite <- He'. now apply in_map.
Qed.

Lemma matching_files_length rx directory entries :
  List.length (matching_files rx directory entries) <= List.length entries.
Proof.
  unfold matching_files. rewrite length_map. apply filter_length_le.
Qed.

(** X13.  In a directory whose entries have distinct names, no file is
    returned twice by the search, so none is merged twice; and the
    search never returns more files than the directory has entries. *)
Theorem no_file_twice w directory pattern rx entries st files s :
  re_compile w pattern true = Some rx ->
  iterdir w directory = Some entries ->
  NoDup (map entry_name entries) ->
  find_matching_pdfs w directory pattern st = (Normal files, s) ->
  NoDup files /\ List.length files <= List.length entries.
Proof.
  intros Hrx Hls Hnd Hfind.
  rewrite find_matching_pdfs_unfold, Hrx, Hls in Hfind.
  destruct (list_sort _ _) as [e|sorted] eqn:Es; [discriminate|].
  injection Hfind as <- _.
  pose proof (list_sort_perm _ _ _ Es) as Hperm. split.
  - exact (Permutation_NoDup Hperm (matching_files_nodup rx directory entries Hnd)).
  - rewrite <- (Permutation_length Hperm). apply matching_files_length.
Qed.

Lemma no_file_twice_witness :
  NoDup [child docs "l2.pdf"; child docs "L02.pdf"; child docs "L2.pdf";
         child docs "L10.pdf"]
  /\ 4 <= 6.
Proof.
  apply (no_file_twice lectures docs "l" (literal_match "l" true)
           [mkEntry "L10.pdf" true; mkEntry "notes.txt" true;
            mkEntry "l2.pdf" true; mkEntry "L02.pdf" true;
            mkEntry "L.pdf" false; mkEntry "L2.pdf" true]
           empty_state
           [child docs "l2.pdf"; child docs "L02.pdf"; child docs "L2.pdf";
            child docs "L10.pdf"]
           empty_state); try reflexivity.
  repeat constructor; simpl; intuition discriminate.
Defined.

(** ** Selection of candidates *)

Lemma lower_char_p c : Str.lower_char c = "p"%char -> c = "p"%char \/ c = "P"%char.
Proof.
  each_char c; vm_compute; intros H;
    try (left; reflexivity); try (right; reflexivity); discriminate H.
Qed.

Lemma lower_char_d c : Str.lower_char c = "d"%char -> c = "d"%char \/ c = "D"%char.
Proof.
  each_char c; vm_compute; intros H;
    try (left; reflexivity); try (right; reflexivity); discriminate H.
Qed.

Lemma lower_char_f c : Str.lower_char c = "f"%char -> c = "f"%char \/ c = "F"%char.
Proof.
  each_char c; vm_compute; intros H;
    try (left; reflexivity); try (right; reflexivity); discriminate H.
Qed.

(** Lowered, a string is ".pdf" exactly when it is one of the eight
    spellings. *)
Lemma lower_pdf_spellings ext : Str.lower ext = ".pdf" <-> In ext pdf_spellings.
Proof.
  split.
  - destruct ext as [|c1 [|c2 [|c3 [|c4 [|c5 ext]]]]]; simpl; try discriminate.
    intros [= H1 H2 H3 H4].
    apply lower_char_is_dot in H1. apply lower_char_p in H2.
    apply lower_char_d in H3. apply lower_char_f in H4. subst c1.
    destruct H2 as [-> | ->], H3 as [-> | ->], H4 as [-> | ->]; tauto.
  - unfold pdf_spellings. simpl.
    intros [<-|[<-|[<-|[<-|[<-|[<-|[<-|[<-|[]]]]]]]]]; reflexivity.
Qed.

(** C3.  When the pattern, compiled with [re.IGNORECASE], compiles and
    the directory can be listed, the files returned are exactly the
    entries of the directory itself that are regular files, whose name
    is a non-empty stem followed by one of the eight spellings of ".pdf",
    and in whose name the pattern matches at some position, wherever in
    the name; the result is the same whatever else the environment
    holds, such as the contents of sub-directories. *)
Theorem candidates_selected w directory pattern rx entries st :
  re_compile w pattern true = Some rx ->
  iterdir w directory = Some entries ->
  (forall e, In e entries -> is_candidate rx directory e = true ->
             natural_sort_key (entry_name e) <> None) ->
  exists files,
    find_matching_pdfs w directory pattern st = (Normal files, st)
    /\ (forall p,
           In p files <->
           exists e, In e entries
                     /\ p = mkPath (root directory) (parts directory ++ [entry_name e])
                     /\ entry_is_file e = true
                     /\ (exists stem ext,
                            entry_name e = String.append stem ext
                            /\ stem <> "" /\ In ext pdf_spellings)
                     /\ exists pos, pos <= String.length (entry_name e)
                                    /\ rx (entry_name e) pos = true)
    /\ (forall w' st',
           re_compile w' pattern true = Some rx ->
           iterdir w' directory = Some entries ->
           find_matching_pdfs w' directory pattern st' = (Normal files, st')).
Proof.
  intros Hrx Hdir Hkeys.
  destruct (list_sort_total path_key path_key_shape (matching_files rx directory entries))
    as [files Hsort].
  { intros x (e & He & -> & Hc)%in_matching_files.
    unfold path_key. rewrite path_name_child. now apply Hkeys. }
  assert (Hext : forall name,
             Str.lower (name_suffix name) = ".pdf" <->
             exists stem ext,
               name = String.append stem ext /\ stem <> "" /\ In ext pdf_spellings).
  { intros name. rewrite lower_suffix_pdf_iff. split;
      intros (stem & ext & Hn & Hs & He); exists stem, ext; repeat split; auto;
        now apply lower_pdf_spellings. }
  exists files. split; [|split].
  - now rewrite find_matching_pdfs_unfold, Hrx, Hdir, Hsort.
  - intros p. pose proof (list_sort_perm _ _ _ Hsort) as Hperm. split.
    + intros Hin. apply (Permutation_in _ (Permutation_sym Hperm)) in Hin.
      apply in_matching_files in Hin as (e & He & -> & Hc).
      apply is_candidate_iff in Hc as (Hf & Hs & Hp).
      exists e. repeat split; auto. now apply Hext.
    + intros (e & He & -> & Hfile & Hsuffix & Hpos).
      apply (Permutation_in _ Hperm), in_matching_files.
      exists e. repeat split; auto. apply is_candidate_iff.
      repeat split; auto. now apply Hext.
  - intros w' st' Hrx' Hdir'.
    now rewrite find_matching_pdfs_unfold, Hrx', Hdir', Hsort.
Qed.

Lemma candidates_selected_witness :
  find_matching_pdfs cabinet docs "p" empty_state
  = (Normal [mkPath "/" ["docs"; "Report.PDF"]], empty_state)
  /\ In (mkPath "/" ["docs"; "Report.PDF"]) [mkPath "/" ["docs"; "Report.PDF"]]
  /\ (In (mkPath "/" ["docs"; ".pdf"]) [mkPath "/" ["docs"; "Report.PDF"]] <->
      exists e, In e cabinet_entries
                /\ mkPath "/" ["docs"; ".pdf"]
                   = mkPath (root docs) (parts docs ++ [entry_name e])
                /\ entry_is_file e = true
                /\ (exists stem ext,
                       entry_name e = String.append stem ext
                       /\ stem <> "" /\ In ext pdf_spellings)
                /\ exists pos, pos <= String.length (entry_name e)
                               /\ literal_match "p" true (entry_name e) pos = true).
Proof.
  destruct (candidates_selected cabinet docs "p" (literal_match "p" true)
              cabinet_entries empty_state eq_refl eq_refl)
    as (files & Hfind & Hiff & _).
  { intros e He Hc. simpl in He.
    repeat (destruct He as [<-|He]; [vm_compute; discriminate|]). destruct He. }
  assert (Hfiles : files = [mkPath "/" ["docs"; "Report.PDF"]]).
  { assert (H : find_matching_pdfs cabinet docs "p" empty_state
                = (Normal [mkPath "/" ["docs"; "Report.PDF"]], empty_state))
      by (vm_compute; reflexivity).
    rewrite Hfind in H. now injection H. }
  subst files. split; [exact Hfind|]. split.
  - apply Hiff. exists (mkEntry "Report.PDF" true).
    split; [simpl; tauto|]. split; [reflexivity|]. split; [reflexivity|]. split.
    + exists "Report", ".PDF". repeat split; [discriminate | simpl; tauto].
    + exists 2. split; [simpl; lia | reflexivity].
  - apply Hiff.
Defined.
